(** * kuyruk: connection and channel lifecycle, task registration

    A shallow embedding of [kuyruk/__init__.py] (class [Kuyruk], helper
    [_is_alive]) and of [kuyruk/connection.py] (class [LazyConnection]).

    The two client libraries the code talks to ([amqp] and [pika]) are not
    part of the repository.  Every call into them is an event of a small
    interaction signature; a program is a finite tree of such events, and
    its meaning is given against an arbitrary implementation of the
    library (a handler over an arbitrary world type).  All theorems
    quantify over that implementation. *)

From Stdlib Require Import List String ZArith Lia Bool DecimalString.
Import ListNotations.
Open Scope string_scope.
Open Scope list_scope.

Set Implicit Arguments.

(** ** Python exceptions *)

(** The exception classes the code names, and any other class by name.
    [IOError] stands for [IOError] and its subclasses: that is what an
    [except IOError] clause catches. *)
Inductive exn : Type :=
| TypeError
| AttributeError
| AssertionError
| IOError
| OtherError (cls : string).

Definition is_IOError (x : exn) : bool :=
  match x with IOError => true | _ => false end.

Definition is_AttributeError (x : exn) : bool :=
  match x with AttributeError => true | _ => false end.

(** The outcome of running a piece of Python: an exception or a value. *)
Definition outcome (A : Type) : Type := (exn + A)%type.

(** ** Programs over an interaction signature *)

Section Prog.
Variable E : Type -> Type.

Inductive prog (A : Type) : Type :=
| Ret (a : A)
| Raise (x : exn)
| Vis (X : Type) (e : E X) (k : X -> prog A).

Arguments Ret {A} a.
Arguments Raise {A} x.
Arguments Vis {A X} e k.

Fixpoint bind {A B} (p : prog A) (f : A -> prog B) : prog B :=
  match p with
  | Ret a => f a
  | Raise x => Raise x
  | Vis e k => Vis e (fun r => bind (k r) f)
  end.

(** [try: p  except: h] where [h] decides by the exception's class. *)
Fixpoint try_except {A} (p : prog A) (h : exn -> prog A) : prog A :=
  match p with
  | Ret a => Ret a
  | Raise x => h x
  | Vis e k => Vis e (fun r => try_except (k r) h)
  end.

(** [try: p  finally: fin].  An exception raised by [fin] replaces the
    outcome of [p]; otherwise the outcome of [p] stands. *)
Fixpoint try_finally {A} (p : prog A) (fin : prog unit) : prog A :=
  match p with
  | Ret a => bind fin (fun _ => Ret a)
  | Raise x => bind fin (fun _ => Raise x)
  | Vis e k => Vis e (fun r => try_finally (k r) fin)
  end.

(** An event whose answer is a value (it cannot raise). *)
Definition trigger {X} (e : E X) : prog X := Vis e (fun r => Ret r).

(** A library call: the library answers with an exception or a value. *)
Definition call {X} (e : E (outcome X)) : prog X :=
  Vis e (fun r => match r with inl x => Raise x | inr v => Ret v end).

(** *** Running a program against a handler *)

Section Run.
Variable S : Type.
Variable h : forall X, E X -> S -> S * X.

Fixpoint run {A} (p : prog A) (s : S) : S * outcome A :=
  match p with
  | Ret a => (s, inr a)
  | Raise x => (s, inl x)
  | Vis e k => let (s', r) := h e s in run (k r) s'
  end.

End Run.
End Prog.

Arguments Ret {E A} a.
Arguments Raise {E A} x.
Arguments Vis {E A X} e k.
Arguments bind {E A B} p f.
Arguments try_except {E A} p h.
Arguments try_finally {E A} p fin.
Arguments trigger {E X} e.
Arguments call {E X} e.
Arguments run {E S} h {A} p s.

Notation "x <- p ;; q" := (bind p (fun x => q))
  (at level 61, p at next level, right associativity).
Notation "p ;;; q" := (bind p (fun _ => q))
  (at level 61, right associativity).

(** ** kuyruk/__init__.py *)

Module Kuyruk.

(** *** The [amqp] client library, as the code uses it *)

(** Connection and channel objects, by identity. *)
Definition conn := nat.
Definition chan := nat.

(** The calls into [amqp].  Each may raise: its answer is an [outcome].
    [ch_basic_publish] is not called by the two files; it is what a body
    run inside a channel scope does with the channel it is given. *)
Inductive amqpE : Type -> Type :=
| amqp_Connection (host userid password virtual_host : string)
    : amqpE (outcome conn)
| conn_connect (c : conn) : amqpE (outcome unit)
| conn_channel (c : conn) : amqpE (outcome chan)
| conn_send_heartbeat (c : conn) : amqpE (outcome unit)
| conn_close (c : conn) : amqpE (outcome unit)
| ch_close (ch : chan) : amqpE (outcome unit)
| ch_basic_publish (ch : chan) (msg routing_key : string)
    : amqpE (outcome unit).

(** What a program of this module can do besides computing: call the
    library, read the attribute [ch.is_open], write to the module's
    logger. *)
Inductive kE : Type -> Type :=
| Amqp (X : Type) (e : amqpE X) : kE X
| ch_is_open (ch : chan) : kE bool
| logger_info (msg : string) : kE unit.

Arguments Amqp {X} e.

(** An implementation of the library over a world [W]. *)
Record amqp_lib (W : Type) : Type := mk_amqp_lib {
  lib_call : forall X, amqpE X -> W -> W * X;
  lib_ch_is_open : chan -> W -> bool
}.

(** One observed library call with its answer. *)
Inductive event : Type :=
| Ev (X : Type) (e : amqpE X) (r : X).

Arguments Ev {X} e r.

Record state (W : Type) : Type := mkState {
  world : W;
  trace : list event;
  logs : list string
}.

Definition handle W (lib : amqp_lib W) X (e : kE X) (s : state W)
  : state W * X :=
  match e in kE X return state W * X with
  | Amqp e' =>
      let (w', r) := lib_call lib e' (world s) in
      (mkState w' (trace s ++ [Ev e' r]) (logs s), r)
  | ch_is_open ch => (s, lib_ch_is_open lib ch (world s))
  | logger_info msg => (mkState (world s) (trace s) (logs s ++ [msg]), tt)
  end.

Definition exec W (lib : amqp_lib W) A (p : prog kE A) (s : state W)
  : state W * outcome A :=
  run (handle lib) p s.

(** *** Values *)

(** Modelled from the spec: the class [Config] of [kuyruk/config.py], which
    is not among the sources: "an opaque read-only structure with named
    fields" supplying host, port, user, password and virtual host. *)
Record Config : Type := mkConfig {
  RABBIT_HOST : string;
  RABBIT_PORT : Z;
  RABBIT_USER : string;
  RABBIT_PASSWORD : string;
  RABBIT_VIRTUAL_HOST : string
}.

(** The Python values that reach [Kuyruk.__init__] and [Kuyruk.task]. *)
Inductive pyval : Type :=
| PyNone
| PyInt (z : Z)
| PyStr (s : string)
| PyFunc (name : string)
| PyConfig (c : Config)
| PyObject (cls : string) (has_call : bool).

(** [callable(v)] *)
Definition callable (v : pyval) : bool :=
  match v with
  | PyFunc _ => true
  | PyObject _ has_call => has_call
  | _ => false
  end.

Definition is_None (v : pyval) : bool :=
  match v with PyNone => true | _ => false end.

(** [str(n)] for an integer. *)
Definition str_int (z : Z) : string := NilZero.string_of_int (Z.to_int z).

Record Kuyruk : Type := mkKuyruk {
  config : Config;
  extensions : list (string * pyval)
}.

(** Modelled from the spec: the class [Task] of [kuyruk/task.py], which is
    not among the sources.  Its constructor stores "underlying callable
    reference, queue name, retry count, max run time" and the [Kuyruk]
    object it is given. *)
Record Task : Type := mkTask {
  task_f : pyval;
  task_kuyruk : Kuyruk;
  task_queue : pyval;
  task_retry : pyval;
  task_max_run_time : pyval
}.

(** *** class Kuyruk *)

Section Init.
(** [Config()]: the default configuration, whose values [kuyruk/config.py]
    gives. *)
Variable Config_default : Config.

Definition __init__ (config : option pyval) : prog kE Kuyruk :=
  let config := match config with Some v => v | None => PyNone end in
  let config := if is_None config then PyConfig Config_default else config in
  match config with
  | PyConfig c => Ret (mkKuyruk c [])
  | _ => Raise TypeError
  end.
End Init.

(** The function [inner] that [decorator()] returns is a closure over
    [self], [queue], [retry] and [max_run_time]: it is kept as the values
    it captures, and [inner] applies it. *)
Record closure : Type := mkClosure {
  cl_self : Kuyruk;
  cl_queue : pyval;
  cl_retry : pyval;
  cl_max_run_time : pyval
}.

Definition inner (cl : closure) (f : pyval) : prog kE Task :=
  let queue_ :=
    if callable (cl_queue cl) then PyStr "kuyruk" else cl_queue cl in
  Ret (mkTask f (cl_self cl) queue_ (cl_retry cl) (cl_max_run_time cl)).

(** What [self.task(...)] returns: the finished [Task] (bare form) or the
    function [inner], still to be applied to the decorated function. *)
Inductive task_result : Type :=
| Decorated (t : Task)
| Decorator (cl : closure).

(** An omitted keyword argument is [None] here; the defaults are those of
    the signature: [queue='kuyruk', retry=0, max_run_time=None]. *)
Definition task (self : Kuyruk) (queue retry max_run_time : option pyval)
  : prog kE task_result :=
  let queue := match queue with Some v => v | None => PyStr "kuyruk" end in
  let retry := match retry with Some v => v | None => PyInt 0 end in
  let max_run_time :=
    match max_run_time with Some v => v | None => PyNone end in
  let decorator (_ : unit) := mkClosure self queue retry max_run_time in
  if callable queue
  then t <- inner (decorator tt) queue ;; Ret (Decorated t)
  else Ret (Decorator (decorator tt)).

Definition _is_alive (c : conn) : prog kE bool :=
  try_except
    (call (Amqp (conn_send_heartbeat c)) ;;; Ret true)
    (fun x => if is_IOError x then Ret false else Raise x).

(** [connection], up to its [yield]. *)
Definition connection_enter (self : Kuyruk) : prog kE conn :=
  let cfg := config self in
  c <- call (Amqp (amqp_Connection
                     (RABBIT_HOST cfg ++ ":" ++ str_int (RABBIT_PORT cfg))%string
                     (RABBIT_USER cfg) (RABBIT_PASSWORD cfg)
                     (RABBIT_VIRTUAL_HOST cfg))) ;;
  try_except (call (Amqp (conn_connect c)))
    (fun x => if is_AttributeError x then Ret tt else Raise x) ;;;
  trigger (logger_info "Connected to RabbitMQ") ;;;
  Ret c.

(** [connection], its [finally] block. *)
Definition connection_exit (c : conn) : prog kE unit :=
  alive <- _is_alive c ;;
  if alive then call (Amqp (conn_close c)) else Ret tt.

(** [with self.connection() as conn: body] *)
Definition connection A (self : Kuyruk) (body : conn -> prog kE A)
  : prog kE A :=
  c <- connection_enter self ;;
  try_finally (body c) (connection_exit c).

(** [channel], between entering the connection and its [yield]. *)
Definition channel_enter (c : conn) : prog kE chan :=
  ch <- call (Amqp (conn_channel c)) ;;
  trigger (logger_info "Opened new channel") ;;;
  Ret ch.

(** [channel], its [finally] block. *)
Definition channel_exit (ch : chan) : prog kE unit :=
  o <- (trigger (ch_is_open ch) : prog kE bool) ;;
  if o
  then try_except (call (Amqp (ch_close ch)))
         (fun x => if is_IOError x then Ret tt else Raise x)
  else Ret tt.

(** [with self.channel() as ch: body] *)
Definition channel A (self : Kuyruk) (body : chan -> prog kE A)
  : prog kE A :=
  connection self (fun c =>
    ch <- channel_enter c ;;
    try_finally (body ch) (channel_exit ch)).

(** *** Reading traces *)

Definition is_open_event (ev : event) : bool :=
  match ev with
  | Ev e _ => match e with amqp_Connection _ _ _ _ => true | _ => false end
  end.

Definition is_close_event (ev : event) : bool :=
  match ev with
  | Ev e _ => match e with conn_close _ => true | _ => false end
  end.

(** The arguments [connection] constructs [amqp.Connection] with. *)
Definition Connection_of (self : Kuyruk) : amqpE (outcome conn) :=
  let cfg := config self in
  amqp_Connection (RABBIT_HOST cfg ++ ":" ++ str_int (RABBIT_PORT cfg))%string
    (RABBIT_USER cfg) (RABBIT_PASSWORD cfg) (RABBIT_VIRTUAL_HOST cfg).

(** The state after one library call answered [r] in world [w]. *)
Definition after W (s : state W) X (e : amqpE X) (w : W) (r : X) : state W :=
  mkState w (trace s ++ [Ev e r]) (logs s).

(** What an [except IOError: pass] makes of the answer of a call. *)
Definition except_IOError (r : outcome unit) : outcome unit :=
  match r with
  | inl x => if is_IOError x then inr tt else inl x
  | inr u => inr u
  end.

(** The events a [connection] scope appends at its exit: the heartbeat
    probe, then the close exactly when the probe was answered. *)
Definition teardown_events (c : conn) (evs : list event) : Prop :=
  (exists x, evs = [Ev (conn_send_heartbeat c) (inl x)]) \/
  (exists u rc, evs = [Ev (conn_send_heartbeat c) (inr u);
                       Ev (conn_close c) rc]).

(** *** A reference broker

    One implementation of the library, to run the code against: it hands
    out connection and channel identities in order, keeps the sets of open
    ones, and raises what [faults] prescribes for a kind of call. *)

Inductive op : Type :=
| OpConnection | OpConnect | OpChannel | OpHeartbeat | OpConnClose
| OpChClose | OpPublish.

Record broker : Type := mkBroker {
  next_id : nat;
  open_conns : list conn;
  open_chans : list chan;
  published : list (string * string)
}.

Definition remove_id (n : nat) (l : list nat) : list nat :=
  filter (fun m => negb (Nat.eqb m n)) l.

Definition faulty (faults : op -> option exn) (o : op) A
  (b : broker) (ok : broker * A) : broker * outcome A :=
  match faults o with
  | Some x => (b, inl x)
  | None => (fst ok, inr (snd ok))
  end.

Definition broker_call (faults : op -> option exn) X (e : amqpE X)
  (b : broker) : broker * X :=
  match e in amqpE X return broker * X with
  | amqp_Connection _ _ _ _ =>
      faulty faults OpConnection b
        (mkBroker (S (next_id b)) (next_id b :: open_conns b)
           (open_chans b) (published b), next_id b)
  | conn_connect _ => faulty faults OpConnect b (b, tt)
  | conn_channel _ =>
      faulty faults OpChannel b
        (mkBroker (S (next_id b)) (open_conns b)
           (next_id b :: open_chans b) (published b), next_id b)
  | conn_send_heartbeat _ => faulty faults OpHeartbeat b (b, tt)
  | conn_close c =>
      faulty faults OpConnClose b
        (mkBroker (next_id b) (remove_id c (open_conns b))
           (open_chans b) (published b), tt)
  | ch_close ch =>
      faulty faults OpChClose b
        (mkBroker (next_id b) (open_conns b)
           (remove_id ch (open_chans b)) (published b), tt)
  | ch_basic_publish _ msg key =>
      faulty faults OpPublish b
        (mkBroker (next_id b) (open_conns b) (open_chans b)
           (published b ++ [(key, msg)]), tt)
  end.

Definition broker_lib (faults : op -> option exn) : amqp_lib broker :=
  mk_amqp_lib (broker_call faults)
    (fun ch b => existsb (Nat.eqb ch) (open_chans b)).

Definition no_faults (o : op) : option exn := None.

(** [ch.close()] raises an error that is no [IOError]. *)
Definition ch_close_fails (o : op) : option exn :=
  match o with OpChClose => Some (OtherError "ChannelError") | _ => None end.

(** The connection is dead when the scope exits. *)
Definition heartbeat_fails (o : op) : option exn :=
  match o with OpHeartbeat => Some IOError | _ => None end.

Definition state0 : state broker := mkState (mkBroker 0 [] [] []) [] [].

Definition config0 : Config := mkConfig "localhost" 5672 "guest" "guest" "/".

Definition kuyruk0 : Kuyruk := mkKuyruk config0 [].

(** A body that publishes one message and then fails. *)
Definition failing_body (ch : chan) : prog kE unit :=
  call (Amqp (ch_basic_publish ch "add(2, 3)" "math")) ;;;
  Raise (OtherError "ValueError").

(** A body that publishes one message. *)
Definition publishing_body (ch : chan) : prog kE unit :=
  call (Amqp (ch_basic_publish ch "add(2, 3)" "math")).

(** The error class the specification names for a bad configuration; the
    sources raise it nowhere. *)
Definition ConfigurationError : exn := OtherError "ConfigurationError".

(** The events of one use of the [channel] scope, from state [s] to state
    [s']: the scope's first call constructs a connection from the
    configuration, and once the connection is entered the scope ends with
    the teardown of that very connection. *)
Definition scope_trace W (lib : amqp_lib W) (self : Kuyruk)
  (s s' : state W) : Prop :=
  (exists rest,
     trace s' =
     trace s ++
     Ev (Connection_of self)
        (snd (lib_call lib (Connection_of self) (world s))) :: rest) /\
  (forall sa c,
     exec lib (connection_enter self) s = (sa, inr c) ->
     exists mid td,
       trace s' = trace sa ++ mid ++ td /\ teardown_events c td).

(** The state in which the body of a [channel] scope starts. *)
Definition body_start (faults : op -> option exn) : state broker :=
  fst (exec (broker_lib faults) (channel_enter 0)
         (fst (exec (broker_lib faults) (connection_enter kuyruk0) state0))).

(** A body of a [connection] scope: open a channel and publish on it. *)
Definition conn_body (c : conn) : prog kE unit :=
  ch <- call (Amqp (conn_channel c)) ;;
  publishing_body ch.

(** The states after one and after two [channel] scopes on [kuyruk0]. *)
Definition after_one_scope : state broker :=
  Eval vm_compute in
  fst (exec (broker_lib no_faults) (channel kuyruk0 publishing_body) state0).

Definition after_two_scopes : state broker :=
  Eval vm_compute in
  fst (exec (broker_lib no_faults) (channel kuyruk0 failing_body)
         after_one_scope).

(** The state after [logger.info(msg)]. *)
Definition logged W (s : state W) (msg : string) : state W :=
  mkState (world s) (trace s) (logs s ++ [msg]).

(** The value an omitted keyword argument of [task] takes. *)
Definition or_default (v : option pyval) (d : pyval) : pyval :=
  match v with Some x => x | None => d end.

(** More brokers: the constructor is refused; [connect()] is refused;
    [connect] does not exist (an older [amqp]); no channel can be opened;
    [conn.close()] fails; the heartbeat fails with an error that is no
    [IOError]. *)
Definition connection_refused (o : op) : option exn :=
  match o with OpConnection => Some IOError | _ => None end.

Definition connect_refused (o : op) : option exn :=
  match o with OpConnect => Some (OtherError "AccessRefused") | _ => None end.

Definition connect_missing (o : op) : option exn :=
  match o with OpConnect => Some AttributeError | _ => None end.

Definition channel_refused (o : op) : option exn :=
  match o with OpChannel => Some (OtherError "ResourceError") | _ => None end.

Definition conn_close_fails (o : op) : option exn :=
  match o with OpConnClose => Some IOError | _ => None end.

Definition heartbeat_breaks (o : op) : option exn :=
  match o with
  | OpHeartbeat => Some (OtherError "ConnectionForced")
  | _ => None
  end.

(** The states of one [channel] scope on [kuyruk0] around [failing_body]:
    the connection entered, the channel entered, the body ended, the
    channel released. *)
Definition entered0 : state broker :=
  Eval vm_compute in
  fst (exec (broker_lib no_faults) (connection_enter kuyruk0) state0).

Definition in_body0 : state broker :=
  Eval vm_compute in
  fst (exec (broker_lib no_faults) (channel_enter 0) entered0).

Definition body_done0 : state broker :=
  Eval vm_compute in
  fst (exec (broker_lib no_faults) (failing_body 1) in_body0).

Definition released0 : state broker :=
  Eval vm_compute in
  fst (exec (broker_lib no_faults) (channel_exit 1) body_done0).

(** The state after the body [conn_body] of a [connection] scope. *)
Definition conn_body_done0 : state broker :=
  Eval vm_compute in
  fst (exec (broker_lib no_faults) (conn_body 0) entered0).

(** Modelled from the spec: invoking a descriptor publishes the message it
    builds to the descriptor's queue, through a [channel] scope of the
    [Kuyruk] instance the descriptor was registered on ([kuyruk/task.py] is
    not among the sources).  [msg] stands for the encoded message; a queue
    that is no string cannot be published to. *)
Definition Task_call (t : Task) (msg : string) : prog kE unit :=
  channel (task_kuyruk t)
    (fun ch =>
       match task_queue t with
       | PyStr q => call (Amqp (ch_basic_publish ch msg q))
       | _ => Raise TypeError
       end).

End Kuyruk.

(** ** kuyruk/connection.py *)

Module Connection.

(** *** The [pika] client library, as the code uses it *)

(** Connection and channel objects, by identity. *)
Definition pconn := nat.
Definition pchan := nat.

(** [pika.PlainCredentials(username, password)] *)
Record PlainCredentials : Type := mkPlainCredentials {
  username : string;
  password_ : string
}.

(** [pika.ConnectionParameters(host=, port=, credentials=)] *)
Record ConnectionParameters : Type := mkConnectionParameters {
  cp_host : string;
  cp_port : Z;
  cp_credentials : PlainCredentials
}.

(** The calls into [pika] that may raise. *)
Inductive pikaE : Type -> Type :=
| BlockingConnection (parameters : ConnectionParameters)
    : pikaE (outcome pconn)
| conn_channel (c : pconn) : pikaE (outcome pchan)
| conn_close (c : pconn) : pikaE (outcome unit).

Record LazyConnection : Type := mkLazyConnection {
  host : string;
  port : Z;
  user : string;
  password : string;
  _connection : option pconn
}.

(** What a method of [LazyConnection] can do besides computing: call the
    library, read the property [is_open] of a [pika] connection, read
    [self], assign [self._connection], write to the module's logger. *)
Inductive lcE : Type -> Type :=
| Pika (X : Type) (e : pikaE X) : lcE X
| conn_is_open (c : pconn) : lcE bool
| get_self : lcE LazyConnection
| set_connection (c : pconn) : lcE unit
| logger_info (msg : string) : lcE unit
| logger_debug (msg : string) : lcE unit.

Arguments Pika {X} e.

(** An implementation of the library over a world [W]. *)
Record pika_lib (W : Type) : Type := mk_pika_lib {
  pika_call : forall X, pikaE X -> W -> W * X;
  pika_is_open : pconn -> W -> bool
}.

(** One observed library call with its answer. *)
Inductive event : Type :=
| Ev (X : Type) (e : pikaE X) (r : X).

Arguments Ev {X} e r.

(** The manager object, the library's world, the calls observed so far
    and the log records (level, message). *)
Record state (W : Type) : Type := mkState {
  self : LazyConnection;
  world : W;
  trace : list event;
  logs : list (string * string)
}.

Definition with_connection (m : LazyConnection) (c : pconn)
  : LazyConnection :=
  mkLazyConnection (host m) (port m) (user m) (password m) (Some c).

Definition handle W (lib : pika_lib W) X (e : lcE X) (s : state W)
  : state W * X :=
  match e in lcE X return state W * X with
  | Pika e' =>
      let (w', r) := pika_call lib e' (world s) in
      (mkState (self s) w' (trace s ++ [Ev e' r]) (logs s), r)
  | conn_is_open c => (s, pika_is_open lib c (world s))
  | get_self => (s, self s)
  | set_connection c =>
      (mkState (with_connection (self s) c) (world s) (trace s) (logs s),
       tt)
  | logger_info msg =>
      (mkState (self s) (world s) (trace s) (logs s ++ [("INFO", msg)]),
       tt)
  | logger_debug msg =>
      (mkState (self s) (world s) (trace s) (logs s ++ [("DEBUG", msg)]),
       tt)
  end.

Definition exec W (lib : pika_lib W) A (p : prog lcE A) (s : state W)
  : state W * outcome A :=
  run (handle lib) p s.

(** *** class LazyConnection *)

Definition __init__ (host : string) (port : Z) (user password : string)
  : LazyConnection :=
  mkLazyConnection host port user password None.

Definition is_open : prog lcE bool :=
  self <- (trigger get_self : prog lcE LazyConnection) ;;
  match _connection self with
  | None => Ret false
  | Some c => trigger (conn_is_open c)
  end.

(** The arguments [open] builds [pika.BlockingConnection] with. *)
Definition parameters_of (self : LazyConnection) : ConnectionParameters :=
  let credentials := mkPlainCredentials (user self) (password self) in
  mkConnectionParameters (host self) (port self) credentials.

Definition open : prog lcE unit :=
  o <- is_open ;;
  if o then Raise AssertionError else
  self <- (trigger get_self : prog lcE LazyConnection) ;;
  c <- call (Pika (BlockingConnection (parameters_of self))) ;;
  trigger (set_connection c) ;;;
  trigger (logger_info "Connected to RabbitMQ").

(** [self._connection.m()]: on [None] the attribute lookup raises. *)
Definition on_connection A (m : pconn -> prog lcE A) : prog lcE A :=
  self <- (trigger get_self : prog lcE LazyConnection) ;;
  match _connection self with
  | None => Raise AttributeError
  | Some c => m c
  end.

Definition channel : prog lcE pchan :=
  o <- is_open ;;
  (if negb o then open else Ret tt) ;;;
  on_connection (fun c => call (Pika (conn_channel c))).

Definition close : prog lcE unit :=
  o <- is_open ;;
  if o
  then on_connection (fun c => call (Pika (conn_close c))) ;;;
       trigger (logger_info "Connection closed")
  else trigger (logger_debug "Not connected").

(** [n] calls of [channel()] in a row, collecting the channels. *)
Fixpoint channels (n : nat) : prog lcE (list pchan) :=
  match n with
  | O => Ret []
  | S n' => ch <- channel ;; chs <- channels n' ;; Ret (ch :: chs)
  end.

(** [n] calls of [close()] in a row. *)
Fixpoint closes (n : nat) : prog lcE unit :=
  match n with
  | O => Ret tt
  | S n' => close ;;; closes n'
  end.

(** *** Reading states and traces *)

(** The value [is_open] returns in a state. *)
Definition is_open_now W (lib : pika_lib W) (s : state W) : bool :=
  match _connection (self s) with
  | None => false
  | Some c => pika_is_open lib c (world s)
  end.

Definition is_open_event (ev : event) : bool :=
  match ev with
  | Ev e _ => match e with BlockingConnection _ => true | _ => false end
  end.

(** The state after one library call answered [r] in world [w]. *)
Definition after W (s : state W) X (e : pikaE X) (w : W) (r : X)
  : state W :=
  mkState (self s) w (trace s ++ [Ev e r]) (logs s).

Definition log W (s : state W) (level msg : string) : state W :=
  mkState (self s) (world s) (trace s) (logs s ++ [(level, msg)]).

(** *** A reference broker *)

Inductive op : Type := OpConnect | OpChannel | OpClose.

Record broker : Type := mkBroker {
  next_id : nat;
  open_conns : list pconn
}.

Definition faulty (faults : op -> option exn) (o : op) A
  (b : broker) (ok : broker * outcome A) : broker * outcome A :=
  match faults o with
  | Some x => (b, inl x)
  | None => ok
  end.

Definition broker_is_open (c : pconn) (b : broker) : bool :=
  existsb (Nat.eqb c) (open_conns b).

Definition broker_call (faults : op -> option exn) X (e : pikaE X)
  (b : broker) : broker * X :=
  match e in pikaE X return broker * X with
  | BlockingConnection _ =>
      faulty faults OpConnect b
        (mkBroker (S (next_id b)) (next_id b :: open_conns b),
         inr (next_id b))
  | conn_channel c =>
      faulty faults OpChannel b
        (if broker_is_open c b
         then (mkBroker (S (next_id b)) (open_conns b), inr (next_id b))
         else (b, inl (OtherError "ConnectionClosed")))
  | conn_close c =>
      faulty faults OpClose b
        (mkBroker (next_id b)
           (filter (fun m => negb (Nat.eqb m c)) (open_conns b)),
         inr tt)
  end.

Definition broker_lib (faults : op -> option exn) : pika_lib broker :=
  mk_pika_lib (broker_call faults) broker_is_open.

(** The channel objects the reference broker has handed out. *)
Definition broker_chans (b : broker) : list pchan := seq 0 (next_id b).

Definition no_faults (o : op) : option exn := None.

(** The broker rejects connection attempts. *)
Definition connect_fails (o : op) : option exn :=
  match o with
  | OpConnect => Some (OtherError "AMQPConnectionError")
  | _ => None
  end.

Definition manager0 : LazyConnection :=
  __init__ "localhost" 5672 "guest" "guest".

Definition state0 : state broker :=
  mkState manager0 (mkBroker 0 []) [] [].

(** The state in which [open] leaves a manager that connected as [c]. *)
Definition opened W (s : state W) (c : pconn) (w : W) : state W :=
  mkState (with_connection (self s) c) w
    (trace s ++ [Ev (BlockingConnection (parameters_of (self s))) (inr c)])
    (logs s ++ [("INFO", "Connected to RabbitMQ")]).

(** The events of creating the channels [chs] on [c]. *)
Definition channel_events (c : pconn) (chs : list pchan) : list event :=
  map (fun ch => Ev (conn_channel c) (inr ch : outcome pchan)) chs.

(** The states in which [n] [channel()] calls in a row start. *)
Fixpoint states_before W (lib : pika_lib W) (n : nat) (s : state W)
  : list (state W) :=
  match n with
  | O => []
  | S n' => s :: states_before lib n' (fst (exec lib channel s))
  end.

(** How many of these calls find the manager not open. *)
Definition not_open_calls W (lib : pika_lib W) (n : nat) (s : state W)
  : nat :=
  List.length
    (filter (fun st => negb (is_open_now lib st)) (states_before lib n s)).

(** The library creates a new channel object at every call ([chans w]: the
    channel objects created so far in world [w]). *)
Definition creates_new_channels W (lib : pika_lib W)
  (chans : W -> list pchan) : Prop :=
  (forall c w w' ch,
     pika_call lib (conn_channel c) w = (w', inr ch) ->
     ~ In ch (chans w) /\ In ch (chans w')) /\
  (forall X (e : pikaE X) w,
     incl (chans w) (chans (fst (pika_call lib e w)))).

(** The state after two [channel()] calls on a fresh manager. *)
Definition after_two_channels : state broker :=
  Eval vm_compute in
  fst (exec (broker_lib no_faults) (channels 2) state0).

(** The state after a rejected connection attempt. *)
Definition after_rejection : state broker :=
  Eval vm_compute in
  fst (exec (broker_lib connect_fails) channel state0).

(** A broker that drops a connection as soon as it has created a channel
    on it: the connection then reports closed. *)
Definition dropping_call X (e : pikaE X) (b : broker) : broker * X :=
  match e in pikaE X return broker * X with
  | BlockingConnection _ =>
      (mkBroker (S (next_id b)) (next_id b :: open_conns b),
       inr (next_id b))
  | conn_channel c =>
      if broker_is_open c b
      then (mkBroker (S (next_id b))
              (filter (fun m => negb (Nat.eqb m c)) (open_conns b)),
            inr (next_id b))
      else (b, inl (OtherError "ConnectionClosed"))
  | conn_close c =>
      (mkBroker (next_id b)
         (filter (fun m => negb (Nat.eqb m c)) (open_conns b)),
       inr tt)
  end.

Definition dropping_lib : pika_lib broker :=
  mk_pika_lib dropping_call broker_is_open.

(** The state after two [channel()] calls against the dropping broker. *)
Definition after_two_dropped : state broker :=
  Eval vm_compute in
  fst (exec dropping_lib (channels 2) state0).

(** The error class the specification names for a failed connection
    attempt; the sources raise it nowhere. *)
Definition ConnectionError : exn := OtherError "ConnectionError".




(** No channel can be opened. *)
Definition channel_fails (o : op) : option exn :=
  match o with OpChannel => Some (OtherError "ChannelClosed") | _ => None end.

(** A manager that holds the open connection [0]. *)
Definition open_state : state broker :=
  Eval vm_compute in
  fst (exec (broker_lib no_faults) open state0).

End Connection.

(** ** Laws of [run] *)

Section RunLaws.
Variable E : Type -> Type.
Variable S : Type.
Variable h : forall X, E X -> S -> S * X.

Lemma run_bind : forall A B (p : prog E A) (f : A -> prog E B) s,
  run h (bind p f) s =
  match run h p s with
  | (s', inr a) => run h (f a) s'
  | (s', inl x) => (s', inl x)
  end.
Proof.
  induction p as [a | x | X e k IH]; intros f s; simpl; auto.
  destruct (h e s) as [s' r]. apply IH.
Qed.

Lemma run_try_except : forall A (p : prog E A) (hd : exn -> prog E A) s,
  run h (try_except p hd) s =
  match run h p s with
  | (s', inr a) => (s', inr a)
  | (s', inl x) => run h (hd x) s'
  end.
Proof.
  induction p as [a | x | X e k IH]; intros hd s; simpl; auto.
  destruct (h e s) as [s' r]. apply IH.
Qed.

Lemma run_try_finally : forall A (p : prog E A) (fin : prog E unit) s,
  run h (try_finally p fin) s =
  match run h p s with
  | (s1, r) =>
      match run h fin s1 with
      | (s2, inl y) => (s2, inl y)
      | (s2, inr _) => (s2, r)
      end
  end.
Proof.
  induction p as [a | x | X e k IH]; intros fin s; simpl.
  - rewrite run_bind. destruct (run h fin s) as [s2 [y | u]]; reflexivity.
  - rewrite run_bind. destruct (run h fin s) as [s2 [y | u]]; reflexivity.
  - destruct (h e s) as [s' r]. apply IH.
Qed.

Lemma run_trigger : forall X (e : E X) s,
  run h (trigger e) s = (fst (h e s), inr (snd (h e s))).
Proof. intros; simpl. destruct (h e s); reflexivity. Qed.

Lemma run_call : forall X (e : E (outcome X)) s,
  run h (call e) s = h e s.
Proof.
  intros; simpl. destruct (h e s) as [s' [x | v]]; reflexivity.
Qed.

End RunLaws.

(** ** Properties of kuyruk/__init__.py *)

Module KuyrukClaims.
Import Kuyruk.

(** *** Running the pieces *)

Section Exec.
Variable W : Type.
Variable lib : amqp_lib W.

Lemma exec_call : forall X (e : amqpE (outcome X)) (s : state W),
  exec lib (call (Amqp e)) s =
  (after s e (fst (lib_call lib e (world s))) (snd (lib_call lib e (world s))),
   snd (lib_call lib e (world s))).
Proof.
  intros X e s. unfold exec. rewrite run_call. simpl.
  destruct (lib_call lib e (world s)) as [w r]. reflexivity.
Qed.

Lemma exec_bind : forall A B (p : prog kE A) (f : A -> prog kE B) s,
  exec lib (bind p f) s =
  match exec lib p s with
  | (s', inr a) => exec lib (f a) s'
  | (s', inl x) => (s', inl x)
  end.
Proof. intros. unfold exec. apply run_bind. Qed.

Lemma exec_extends : forall A (p : prog kE A) s,
  exists evs, trace (fst (exec lib p s)) = trace s ++ evs.
Proof.
  unfold exec.
  induction p as [a | x | X e k IH]; intros s; simpl.
  - exists []. now rewrite app_nil_r.
  - exists []. now rewrite app_nil_r.
  - destruct e as [X e' | ch | msg]; simpl.
    + destruct (lib_call lib e' (world s)) as [w r].
      destruct (IH r (mkState w (trace s ++ [Ev e' r]) (logs s))) as [evs H].
      exists (Ev e' r :: evs). rewrite H. simpl. now rewrite <- app_assoc.
    + apply IH.
    + destruct (IH tt (mkState (world s) (trace s) (logs s ++ [msg])))
        as [evs H].
      exists evs. exact H.
Qed.

Lemma exec__is_alive : forall c s,
  exec lib (_is_alive c) s =
  let (w, r) := lib_call lib (conn_send_heartbeat c) (world s) in
  (after s (conn_send_heartbeat c) w r,
   match r with
   | inr _ => inr true
   | inl x => if is_IOError x then inr false else inl x
   end).
Proof.
  intros c s. unfold exec, _is_alive. rewrite run_try_except, run_bind.
  rewrite run_call. simpl.
  destruct (lib_call lib (conn_send_heartbeat c) (world s)) as [w [x | u]];
    simpl; [destruct (is_IOError x)|]; reflexivity.
Qed.

Lemma exec_connection_exit : forall c s,
  exec lib (connection_exit c) s =
  let (w, r) := lib_call lib (conn_send_heartbeat c) (world s) in
  let s1 := after s (conn_send_heartbeat c) w r in
  match r with
  | inr _ =>
      let (w2, rc) := lib_call lib (conn_close c) w in
      (after s1 (conn_close c) w2 rc, rc)
  | inl x => (s1, if is_IOError x then inr tt else inl x)
  end.
Proof.
  intros c s. unfold connection_exit. rewrite exec_bind, exec__is_alive.
  destruct (lib_call lib (conn_send_heartbeat c) (world s)) as [w [x | u]].
  - destruct (is_IOError x); reflexivity.
  - rewrite exec_call. simpl.
    destruct (lib_call lib (conn_close c) w) as [w2 rc]. reflexivity.
Qed.

Lemma exec_channel_exit : forall ch s,
  exec lib (channel_exit ch) s =
  if lib_ch_is_open lib ch (world s)
  then let (w, rc) := lib_call lib (ch_close ch) (world s) in
       (after s (ch_close ch) w rc, except_IOError rc)
  else (s, inr tt).
Proof.
  intros ch s. unfold channel_exit, exec. rewrite run_bind. simpl.
  destruct (lib_ch_is_open lib ch (world s)); [|reflexivity].
  simpl.
  destruct (lib_call lib (ch_close ch) (world s)) as [w [x | []]]; simpl;
    [destruct (is_IOError x)|]; reflexivity.
Qed.

Lemma exec_connection : forall A self (body : conn -> prog kE A) s,
  exec lib (connection self body) s =
  match exec lib (connection_enter self) s with
  | (s1, inl x) => (s1, inl x)
  | (s1, inr c) =>
      let (s2, r) := exec lib (body c) s1 in
      match exec lib (connection_exit c) s2 with
      | (s3, inl y) => (s3, inl y)
      | (s3, inr _) => (s3, r)
      end
  end.
Proof.
  intros. unfold connection. rewrite exec_bind.
  destruct (exec lib (connection_enter self) s) as [s1 [x | c]]; auto.
  unfold exec. apply run_try_finally.
Qed.

Lemma exec_channel_body : forall A c (body : chan -> prog kE A) s1,
  exec lib (ch <- channel_enter c ;;
            try_finally (body ch) (channel_exit ch)) s1 =
  match exec lib (channel_enter c) s1 with
  | (s2, inl x) => (s2, inl x)
  | (s2, inr ch) =>
      let (s3, r) := exec lib (body ch) s2 in
      match exec lib (channel_exit ch) s3 with
      | (s4, inl y) => (s4, inl y)
      | (s4, inr _) => (s4, r)
      end
  end.
Proof.
  intros. rewrite exec_bind.
  destruct (exec lib (channel_enter c) s1) as [s2 [x | ch]]; auto.
  unfold exec. apply run_try_finally.
Qed.

Lemma exec_connection_enter_first : forall self s,
  exists evs,
    trace (fst (exec lib (connection_enter self) s)) =
    trace s ++
    Ev (Connection_of self)
       (snd (lib_call lib (Connection_of self) (world s))) :: evs.
Proof.
  intros self s. unfold connection_enter. fold (Connection_of self).
  rewrite exec_bind, exec_call.
  destruct (lib_call lib (Connection_of self) (world s)) as [w [x | c]];
    cbn [fst snd].
  - exists []. reflexivity.
  - match goal with
    | |- context [exec lib ?p ?s1] =>
        destruct (exec_extends p s1) as [evs H]
    end.
    exists evs. rewrite H. unfold after. simpl. now rewrite <- app_assoc.
Qed.

End Exec.

Section Scopes.
Variable W : Type.
Variable lib : amqp_lib W.

Lemma connection_exit_teardown : forall c s,
  exists td,
    trace (fst (exec lib (connection_exit c) s)) = trace s ++ td /\
    teardown_events c td.
Proof.
  intros c s. rewrite exec_connection_exit.
  destruct (lib_call lib (conn_send_heartbeat c) (world s)) as [w [x | u]].
  - exists [Ev (conn_send_heartbeat c) (inl x)]. split; [reflexivity|].
    left. now exists x.
  - destruct (lib_call lib (conn_close c) w) as [w2 rc].
    exists [Ev (conn_send_heartbeat c) (inr u); Ev (conn_close c) rc].
    split.
    + unfold after. simpl. now rewrite <- app_assoc.
    + right. now exists u, rc.
Qed.

Lemma connection_scope_trace :
  forall A self (body : conn -> prog kE A) s s' r,
  exec lib (connection self body) s = (s', r) ->
  scope_trace lib self s s'.
Proof.
  intros A self body s s' r H. unfold scope_trace.
  rewrite exec_connection in H.
  destruct (exec_connection_enter_first lib self s) as [evs Hfirst].
  destruct (exec lib (connection_enter self) s) as [s1 [x | c]] eqn:Henter;
    simpl in Hfirst.
  - inversion H; subst. split.
    + exists evs. exact Hfirst.
    + intros sa c Hc. discriminate Hc.
  - destruct (exec lib (body c) s1) as [s2 rb] eqn:Hbody.
    destruct (exec_extends lib (body c) s1) as [mid Hmid].
    rewrite Hbody in Hmid. simpl in Hmid.
    destruct (connection_exit_teardown c s2) as [td [Htd Hshape]].
    assert (Hs' : s' = fst (exec lib (connection_exit c) s2)).
    { destruct (exec lib (connection_exit c) s2) as [s3 [y | u]];
        inversion H; reflexivity. }
    rewrite <- Hs' in Htd. split.
    + exists (evs ++ mid ++ td).
      rewrite Htd, Hmid, Hfirst. rewrite <- !app_assoc. reflexivity.
    + intros sa c' Hc. inversion Hc; subst sa c'.
      exists mid, td. split; [|exact Hshape].
      rewrite Htd, Hmid. now rewrite <- app_assoc.
Qed.

(** C1 (as amended).  When the body of a [channel] scope raises [e]: the
    scope calls [ch.close()] exactly when the channel still reports open,
    an [IOError] raised by that call is swallowed, and whenever neither the
    channel's release nor the connection's teardown raises, the error
    leaving the scope is [e]. *)
Theorem channel_scope_body_error :
  forall A self (body : chan -> prog kE A) s s1 c s2 ch s3 e,
  exec lib (connection_enter self) s = (s1, inr c) ->
  exec lib (channel_enter c) s1 = (s2, inr ch) ->
  exec lib (body ch) s2 = (s3, inl e) ->
  exists s4 r4,
    exec lib (channel_exit ch) s3 = (s4, r4) /\
    (lib_ch_is_open lib ch (world s3) = true ->
       exists rc,
         trace s4 = trace s3 ++ [Ev (ch_close ch) rc] /\
         r4 = except_IOError rc) /\
    (lib_ch_is_open lib ch (world s3) = false -> s4 = s3 /\ r4 = inr tt) /\
    (forall s5,
       r4 = inr tt ->
       exec lib (connection_exit c) s4 = (s5, inr tt) ->
       exec lib (channel self body) s = (s5, inl e)).
Proof.
  intros A self body s s1 c s2 ch s3 e Henter Hch Hbody.
  destruct (exec lib (channel_exit ch) s3) as [s4 r4] eqn:Hexit.
  exists s4, r4. split; [reflexivity|].
  rewrite exec_channel_exit in Hexit.
  repeat split.
  - intros Hopen. rewrite Hopen in Hexit.
    destruct (lib_call lib (ch_close ch) (world s3)) as [w rc].
    inversion Hexit; subst. exists rc. split; reflexivity.
  - rewrite H in Hexit. now inversion Hexit.
  - rewrite H in Hexit. now inversion Hexit.
  - intros s5 Hr4 Hcexit. subst r4.
    unfold channel. rewrite exec_connection, Henter.
    rewrite exec_channel_body, Hch, Hbody.
    rewrite <- exec_channel_exit in Hexit. rewrite Hexit, Hcexit.
    reflexivity.
Qed.

(** C6.  At the exit of a [connection] scope the connection is closed only
    if the heartbeat probe was answered; when the probe fails with an
    [IOError] no close is attempted and the scope ends with the outcome of
    its body. *)
Theorem connection_scope_dead_skips_close :
  forall A self (body : conn -> prog kE A) s s1 c s2 r,
  exec lib (connection_enter self) s = (s1, inr c) ->
  exec lib (body c) s1 = (s2, r) ->
  (exists td,
     trace (fst (exec lib (connection_exit c) s2)) = trace s2 ++ td /\
     teardown_events c td) /\
  (forall w x,
     lib_call lib (conn_send_heartbeat c) (world s2) = (w, inl x) ->
     is_IOError x = true ->
     exec lib (connection self body) s =
     (after s2 (conn_send_heartbeat c) w (inl x), r)).
Proof.
  intros A self body s s1 c s2 r Henter Hbody. split.
  - apply connection_exit_teardown.
  - intros w x Hhb Hio.
    rewrite exec_connection, Henter, Hbody, exec_connection_exit, Hhb, Hio.
    reflexivity.
Qed.

(** C10 (as amended).  Each use of the [channel] scope constructs a
    connection of its own from the configuration, whatever ran before on
    the same [Kuyruk] object, and once that connection is entered the scope
    ends by probing it and closing it exactly when the probe is answered. *)
Theorem channel_scopes_own_connection :
  forall A B self (b1 : chan -> prog kE A) (b2 : chan -> prog kE B)
         s s1 r1 s2 r2,
  exec lib (channel self b1) s = (s1, r1) ->
  exec lib (channel self b2) s1 = (s2, r2) ->
  scope_trace lib self s s1 /\ scope_trace lib self s1 s2.
Proof.
  intros A B self b1 b2 s s1 r1 s2 r2 H1 H2. unfold channel in H1, H2.
  split; eapply connection_scope_trace; eassumption.
Qed.

(** C9.  Registering a function is pure: for every function and all
    arguments, [task] (and, in the parameterized form, the decorator it
    returns) makes no library call and leaves the state as it was, and the
    descriptor it gives is bound to the [Kuyruk] instance it was registered
    on.  Invoking that descriptor is what touches the network: from any
    state, its first event constructs a connection from the configuration
    of that instance. *)
Theorem task_registration_is_pure :
  forall self queue retry max_run_time f (s : state W),
  exists t,
    (exec lib (task self queue retry max_run_time) s =
     (s, inr (Decorated t)) \/
     exists cl,
       exec lib (task self queue retry max_run_time) s =
       (s, inr (Decorator cl)) /\
       exec lib (inner cl f) s = (s, inr t)) /\
    task_kuyruk t = self /\
    forall msg (s1 : state W),
    exists rest,
      trace (fst (exec lib (Task_call t msg) s1)) =
      trace s1 ++
      Ev (Connection_of self)
         (snd (lib_call lib (Connection_of self) (world s1))) :: rest.
Proof.
  intros self queue retry max_run_time f s.
  assert (Hcall : forall t msg (s1 : state W),
            task_kuyruk t = self ->
            exists rest,
              trace (fst (exec lib (Task_call t msg) s1)) =
              trace s1 ++
              Ev (Connection_of self)
                 (snd (lib_call lib (Connection_of self) (world s1)))
              :: rest).
  { intros t msg s1 Ht. unfold Task_call, channel. rewrite Ht.
    match goal with
    | |- context [exec lib (connection self ?b) s1] =>
        destruct (exec lib (connection self b) s1) as [s2 r] eqn:H;
        destruct (connection_scope_trace _ _ _ H) as [Hfirst _]
    end.
    exact Hfirst. }
  unfold task.
  destruct (callable match queue with
                     | Some v => v
                     | None => PyStr "kuyruk"
                     end) eqn:Hc.
  - eexists. split; [left; reflexivity|].
    split; [reflexivity|]. intros msg s1. apply Hcall. reflexivity.
  - eexists. split; [right; eexists; split; reflexivity|].
    split; [reflexivity|]. intros msg s1. apply Hcall. reflexivity.
Qed.

(** C8 (as amended).  [Kuyruk(config)] checks the type of [config] when it
    is called: [None] takes the default configuration, a [Config] is kept,
    anything else raises [TypeError]; no library call is made and nothing
    is left to a later use. *)
Theorem init_checks_config_type :
  forall Config_default config (s : state W),
  exec lib (__init__ Config_default config) s =
  (s,
   match config with
   | None | Some PyNone => inr (mkKuyruk Config_default [])
   | Some (PyConfig c) => inr (mkKuyruk c [])
   | Some _ => inl TypeError
   end).
Proof.
  intros D config s. unfold __init__.
  destruct config as [v|]; [destruct v|]; reflexivity.
Qed.

End Scopes.

(** C7 (as amended).  For a callable [f], the bare form [task(f)] and the
    parameterized forms [task(queue="x", ...)(f)] and [task(...)(f)] all
    give a [Task] for [f] whose queue is a string, never [None]: the name
    given, and ["kuyruk"] when none is given. *)
Theorem task_queue_default :
  forall self f,
  callable f = true ->
  (exists t,
     task self (Some f) None None = Ret (Decorated t) /\
     task_f t = f /\ task_queue t = PyStr "kuyruk") /\
  (forall x retry max_run_time,
     exists cl t,
       task self (Some (PyStr x)) retry max_run_time = Ret (Decorator cl) /\
       inner cl f = Ret t /\ task_f t = f /\ task_queue t = PyStr x) /\
  (forall retry max_run_time,
     exists cl t,
       task self None retry max_run_time = Ret (Decorator cl) /\
       inner cl f = Ret t /\ task_f t = f /\ task_queue t = PyStr "kuyruk").
Proof.
  intros self f Hf. repeat split.
  - unfold task. rewrite Hf. simpl. rewrite Hf.
    eexists. repeat split.
  - intros x retry max_run_time. do 2 eexists. repeat split.
  - intros retry max_run_time. do 2 eexists. repeat split.
Qed.

(** **** The scopes run against the reference broker *)

Lemma channel_scope_body_error_witness :
  snd (exec (broker_lib no_faults) (channel kuyruk0 failing_body) state0) =
  inl (OtherError "ValueError").
Proof.
  destruct (@channel_scope_body_error broker (broker_lib no_faults) unit
              kuyruk0 failing_body state0
              (fst (exec (broker_lib no_faults)
                      (connection_enter kuyruk0) state0))
              0 (body_start no_faults) 1
              (fst (exec (broker_lib no_faults) (failing_body 1)
                      (body_start no_faults)))
              (OtherError "ValueError") eq_refl eq_refl eq_refl)
    as [s4 [r4 [Hexit [_ [_ Hscope]]]]].
  vm_compute in Hexit. inversion Hexit; subst s4 r4.
  rewrite (Hscope _ eq_refl eq_refl). reflexivity.
Defined.

(** C1, refuted as stated: the body raises [ValueError], [ch.close()]
    raises an error that is no [IOError], and that error leaves the scope
    in place of the body's. *)
Lemma channel_scope_close_error_replaces_body_error :
  snd (exec (broker_lib ch_close_fails) (failing_body 1)
         (body_start ch_close_fails)) = inl (OtherError "ValueError") /\
  snd (exec (broker_lib ch_close_fails) (channel kuyruk0 failing_body)
         state0) = inl (OtherError "ChannelError") /\
  OtherError "ChannelError" <> OtherError "ValueError".
Proof.
  split; [reflexivity|]. split; [reflexivity|]. intros H. discriminate H.
Qed.

Lemma connection_scope_dead_skips_close_witness :
  snd (exec (broker_lib heartbeat_fails) (connection kuyruk0 conn_body)
         state0) = inr tt /\
  filter is_close_event
    (trace (fst (exec (broker_lib heartbeat_fails)
                   (connection kuyruk0 conn_body) state0))) = [].
Proof.
  destruct (@connection_scope_dead_skips_close broker
              (broker_lib heartbeat_fails) unit kuyruk0 conn_body state0
              (fst (exec (broker_lib heartbeat_fails)
                      (connection_enter kuyruk0) state0))
              0
              (fst (exec (broker_lib heartbeat_fails) (conn_body 0)
                      (fst (exec (broker_lib heartbeat_fails)
                              (connection_enter kuyruk0) state0))))
              (inr tt) eq_refl eq_refl)
    as [_ Hdead].
  rewrite (Hdead _ IOError eq_refl eq_refl). split; reflexivity.
Defined.

Lemma channel_scopes_own_connection_witness :
  scope_trace (broker_lib no_faults) kuyruk0 state0 after_one_scope /\
  scope_trace (broker_lib no_faults) kuyruk0 after_one_scope
    after_two_scopes.
Proof.
  apply (@channel_scopes_own_connection broker (broker_lib no_faults)
           unit unit kuyruk0 publishing_body failing_body
           state0 after_one_scope (inr tt)
           after_two_scopes (inl (OtherError "ValueError")));
    vm_compute; reflexivity.
Defined.

(** C10, refuted as stated: two sequential [channel] scopes on one
    [Kuyruk] object, both ending normally, against a broker whose
    heartbeat fails at scope exit: two connections are opened and none is
    closed. *)
Lemma channel_scopes_without_close_event :
  snd (exec (broker_lib heartbeat_fails)
         (channel kuyruk0 publishing_body ;;;
          channel kuyruk0 publishing_body) state0) = inr tt /\
  List.length (filter is_open_event
            (trace (fst (exec (broker_lib heartbeat_fails)
                           (channel kuyruk0 publishing_body ;;;
                            channel kuyruk0 publishing_body) state0)))) = 2 /\
  filter is_close_event
    (trace (fst (exec (broker_lib heartbeat_fails)
                   (channel kuyruk0 publishing_body ;;;
                    channel kuyruk0 publishing_body) state0))) = [].
Proof.
  split; [reflexivity|]. split; reflexivity.
Qed.

Lemma task_queue_default_witness :
  exists t,
    task kuyruk0 (Some (PyFunc "add")) None None = Ret (Decorated t) /\
    task_f t = PyFunc "add" /\ task_queue t = PyStr "kuyruk".
Proof.
  exact (proj1 (task_queue_default kuyruk0 (PyFunc "add") eq_refl)).
Defined.

(** C7, refuted as stated: the queue of a task decorated in the bare form
    is ["kuyruk"], not ["default"]. *)
Lemma task_bare_queue_is_not_default :
  task kuyruk0 (Some (PyFunc "add")) None None =
  Ret (Decorated (mkTask (PyFunc "add") kuyruk0 (PyStr "kuyruk") (PyInt 0)
                    PyNone)) /\
  PyStr "kuyruk" <> PyStr "default".
Proof.
  split; [reflexivity|]. intros H. discriminate H.
Qed.

(** C8, refuted as stated: a configuration of the wrong type raises
    [TypeError], which is not [ConfigurationError]. *)
Lemma init_raises_TypeError_not_ConfigurationError :
  exec (broker_lib no_faults) (__init__ config0 (Some (PyStr "localhost")))
    state0 = (state0, inl TypeError) /\
  TypeError <> ConfigurationError.
Proof.
  split; [reflexivity|]. intros H. discriminate H.
Qed.

End KuyrukClaims.

(** ** Properties of kuyruk/connection.py *)

Module ConnectionClaims.
Import Connection.

Section Manager.
Variable W : Type.
Variable lib : pika_lib W.

Lemma exec_is_open : forall s : state W,
  exec lib is_open s = (s, inr (is_open_now lib s)).
Proof.
  intros s. unfold exec, is_open, is_open_now. simpl.
  destruct (_connection (self s)); reflexivity.
Qed.

Lemma lc_exec_bind : forall A B (p : prog lcE A) (f : A -> prog lcE B) s,
  exec lib (bind p f) s =
  match exec lib p s with
  | (s', inr a) => exec lib (f a) s'
  | (s', inl x) => (s', inl x)
  end.
Proof. intros. unfold exec. apply run_bind. Qed.

Lemma exec_open : forall s : state W,
  is_open_now lib s = false ->
  exec lib open s =
  let (w, r) :=
    pika_call lib (BlockingConnection (parameters_of (self s))) (world s) in
  match r with
  | inl x =>
      (after s (BlockingConnection (parameters_of (self s))) w (inl x),
       inl x)
  | inr c => (opened s c w, inr tt)
  end.
Proof.
  intros s H. unfold open. rewrite lc_exec_bind, exec_is_open, H.
  unfold exec. simpl.
  destruct (pika_call lib (BlockingConnection (parameters_of (self s)))
              (world s)) as [w [x | c]]; reflexivity.
Qed.

Lemma exec_on_connection :
  forall A (m : pconn -> prog lcE A) (s : state W) c,
  _connection (self s) = Some c ->
  exec lib (on_connection m) s = exec lib (m c) s.
Proof.
  intros A m s c H. unfold exec, on_connection. simpl. rewrite H.
  reflexivity.
Qed.

Lemma lc_exec_call : forall X (e : pikaE (outcome X)) (s : state W),
  exec lib (call (Pika e)) s =
  (after s e (fst (pika_call lib e (world s)))
     (snd (pika_call lib e (world s))),
   snd (pika_call lib e (world s))).
Proof.
  intros X e s. unfold exec. rewrite run_call. simpl.
  destruct (pika_call lib e (world s)) as [w r]. reflexivity.
Qed.

(** [channel()] on a manager that is not open. *)
Lemma exec_channel_not_open : forall s : state W,
  is_open_now lib s = false ->
  exec lib channel s =
  let (w, r) :=
    pika_call lib (BlockingConnection (parameters_of (self s))) (world s) in
  match r with
  | inl x =>
      (after s (BlockingConnection (parameters_of (self s))) w (inl x),
       inl x)
  | inr c => exec lib (call (Pika (conn_channel c))) (opened s c w)
  end.
Proof.
  intros s H. unfold channel.
  rewrite lc_exec_bind, exec_is_open, H. simpl negb. cbv iota.
  rewrite lc_exec_bind, exec_open by exact H.
  destruct (pika_call lib (BlockingConnection (parameters_of (self s)))
              (world s)) as [w [x | c]]; [reflexivity|].
  apply (exec_on_connection (fun c => call (Pika (conn_channel c)))).
  reflexivity.
Qed.

(** [channel()] on a manager that is open. *)
Lemma exec_channel_open : forall (s : state W) c,
  _connection (self s) = Some c ->
  pika_is_open lib c (world s) = true ->
  exec lib channel s = exec lib (call (Pika (conn_channel c))) s.
Proof.
  intros s c Hc Ho. unfold channel.
  rewrite lc_exec_bind, exec_is_open. unfold is_open_now. rewrite Hc, Ho.
  simpl negb. cbv iota. rewrite lc_exec_bind. unfold exec at 1. simpl run.
  apply (exec_on_connection (fun c => call (Pika (conn_channel c)))).
  exact Hc.
Qed.


Lemma exec_close_not_open : forall s : state W,
  is_open_now lib s = false ->
  exec lib close s = (log s "DEBUG" "Not connected", inr tt).
Proof.
  intros s H. unfold close. rewrite lc_exec_bind, exec_is_open, H.
  reflexivity.
Qed.

(** C4.  On a manager that is not open, any number of [close()] calls
    raises nothing, calls the library not at all and leaves the manager as
    it was: each call only logs ["Not connected"] at debug level.  On an
    open manager [close()] calls [close()] on the stored connection. *)
Theorem close_is_idempotent : forall s : state W,
  (is_open_now lib s = false ->
   forall n,
     exec lib (closes n) s =
     (mkState (self s) (world s) (trace s)
        (logs s ++ repeat ("DEBUG", "Not connected") n),
      inr tt)) /\
  (forall c,
     _connection (self s) = Some c ->
     pika_is_open lib c (world s) = true ->
     exec lib close s =
     let (w, r) := pika_call lib (conn_close c) (world s) in
     match r with
     | inl x => (after s (conn_close c) w (inl x), inl x)
     | inr u =>
         (log (after s (conn_close c) w (inr u)) "INFO" "Connection closed",
          inr tt)
     end).
Proof.
  intros s. split.
  - intros H n. revert s H.
    induction n as [|n IH]; intros s H.
    + unfold exec. simpl. rewrite app_nil_r. destruct s; reflexivity.
    + change (closes (S n)) with (close ;;; closes n).
      rewrite lc_exec_bind, exec_close_not_open by exact H.
      rewrite IH by exact H. unfold log. simpl.
      rewrite <- app_assoc. reflexivity.
  - intros c Hc Ho. unfold close.
    rewrite lc_exec_bind, exec_is_open. unfold is_open_now.
    rewrite Hc, Ho. rewrite lc_exec_bind.
    rewrite (exec_on_connection (fun c => call (Pika (conn_close c))) s Hc).
    rewrite lc_exec_call.
    destruct (pika_call lib (conn_close c) (world s)) as [w [x | u]];
      reflexivity.
Qed.

(** C5.  When the manager is not open and [pika.BlockingConnection]
    raises [e], [channel()] raises [e]; the manager object is unchanged, so
    a connection that was absent stays absent, and [is_open] is false
    afterward. *)
Theorem channel_connect_failure : forall (s : state W) w e,
  is_open_now lib s = false ->
  pika_call lib (BlockingConnection (parameters_of (self s))) (world s) =
  (w, inl e) ->
  exec lib channel s =
  (after s (BlockingConnection (parameters_of (self s))) w (inl e), inl e) /\
  (_connection (self s) = None ->
   exec lib is_open
     (after s (BlockingConnection (parameters_of (self s))) w (inl e)) =
   (after s (BlockingConnection (parameters_of (self s))) w (inl e),
    inr false)) /\
  (forall c,
     _connection (self s) = Some c ->
     pika_is_open lib c w = false ->
     is_open_now lib
       (after s (BlockingConnection (parameters_of (self s))) w (inl e)) =
     false).
Proof.
  intros s w e Hclosed Hfail. split.
  - rewrite exec_channel_not_open by exact Hclosed. rewrite Hfail.
    reflexivity.
  - split.
    + intros Hnone. rewrite exec_is_open. unfold is_open_now. simpl.
      rewrite Hnone. reflexivity.
    + intros c Hc Hw. unfold is_open_now. simpl. rewrite Hc. exact Hw.
Qed.

End Manager.

(** *** A sequence of [channel()] calls *)

Section Lazy.
Variable W : Type.
Variable lib : pika_lib W.

(** One successful [channel()] call on an open manager. *)
Lemma channel_call_open : forall (s s1 : state W) c ch,
  _connection (self s) = Some c ->
  pika_is_open lib c (world s) = true ->
  exec lib channel s = (s1, inr ch) ->
  pika_call lib (conn_channel c) (world s) = (world s1, inr ch) /\
  s1 = after s (conn_channel c) (world s1) (inr ch).
Proof.
  intros s s1 c ch Hc Ho Hrun.
  rewrite (exec_channel_open lib s Hc Ho), lc_exec_call in Hrun.
  destruct (pika_call lib (conn_channel c) (world s)) as [w r].
  cbn [fst snd] in Hrun. inversion Hrun; subst. split; reflexivity.
Qed.

(** One successful [channel()] call on a manager that is not open. *)
Lemma channel_call_not_open : forall (s s1 : state W) ch,
  is_open_now lib s = false ->
  exec lib channel s = (s1, inr ch) ->
  exists c w,
    pika_call lib (BlockingConnection (parameters_of (self s))) (world s) =
    (w, inr c) /\
    pika_call lib (conn_channel c) w = (world s1, inr ch) /\
    s1 = after (opened s c w) (conn_channel c) (world s1) (inr ch).
Proof.
  intros s s1 ch Ho Hrun.
  rewrite (exec_channel_not_open lib s Ho) in Hrun.
  destruct (pika_call lib (BlockingConnection (parameters_of (self s)))
              (world s)) as [w [x | c]] eqn:Hbc; [discriminate Hrun|].
  rewrite lc_exec_call in Hrun.
  change (world (opened s c w)) with w in Hrun.
  destruct (pika_call lib (conn_channel c) w) as [w2 r] eqn:Hcc.
  cbn [fst snd] in Hrun. inversion Hrun; subst.
  exists c, w. split; [reflexivity|split; [exact Hcc|reflexivity]].
Qed.

(** A call opens a connection exactly when it finds the manager not
    open. *)
Lemma channel_call_opens : forall (s s1 : state W) ch,
  exec lib channel s = (s1, inr ch) ->
  List.length (filter is_open_event (trace s1)) =
  List.length (filter is_open_event (trace s)) +
  (if is_open_now lib s then 0 else 1).
Proof.
  intros s s1 ch Hrun. destruct (is_open_now lib s) eqn:Ho.
  - unfold is_open_now in Ho.
    destruct (_connection (self s)) as [c|] eqn:Hc; [|discriminate].
    destruct (@channel_call_open s s1 c ch Hc Ho Hrun) as [_ Hs1].
    rewrite Hs1. unfold after. cbn [trace].
    rewrite filter_app, length_app. simpl. lia.
  - destruct (@channel_call_not_open s s1 ch Ho Hrun) as [c [w [_ [_ Hs1]]]].
    rewrite Hs1. unfold after, opened. cbn [trace].
    rewrite !filter_app, !length_app. simpl. lia.
Qed.

Lemma channels_step : forall n (s s' : state W) chs,
  exec lib (channels (S n)) s = (s', inr chs) ->
  exists s1 ch chs',
    exec lib channel s = (s1, inr ch) /\
    exec lib (channels n) s1 = (s', inr chs') /\
    chs = ch :: chs'.
Proof.
  intros n s s' chs Hrun.
  change (channels (S n))
    with (ch <- channel ;; chs <- channels n ;; Ret (ch :: chs)) in Hrun.
  rewrite lc_exec_bind in Hrun.
  destruct (exec lib channel s) as [s1 [x | ch]] eqn:Hch;
    [discriminate Hrun|].
  rewrite lc_exec_bind in Hrun.
  destruct (exec lib (channels n) s1) as [s2 [x | chs']] eqn:Hrest;
    [discriminate Hrun|].
  unfold exec in Hrun. simpl in Hrun. inversion Hrun; subst.
  exists s1, ch, chs'.
  split; [reflexivity|split; [exact Hrest|reflexivity]].
Qed.

Lemma channels_zero : forall (s s' : state W) chs,
  exec lib (channels 0) s = (s', inr chs) -> s' = s /\ chs = [].
Proof.
  intros s s' chs Hrun. unfold exec in Hrun. simpl in Hrun.
  inversion Hrun. split; reflexivity.
Qed.

(** In a run of successful calls, connections are opened at exactly the
    calls that find the manager not open. *)
Lemma channels_opens : forall n (s s' : state W) chs,
  exec lib (channels n) s = (s', inr chs) ->
  List.length (filter is_open_event (trace s')) =
  List.length (filter is_open_event (trace s)) + not_open_calls lib n s /\
  List.length chs = n.
Proof.
  induction n as [|n IH]; intros s s' chs Hrun.
  - destruct (@channels_zero s s' chs Hrun) as [-> ->].
    unfold not_open_calls. simpl. lia.
  - destruct (@channels_step n s s' chs Hrun) as [s1 [ch [chs' [Hch [Hrest ->]]]]].
    destruct (IH _ _ _ Hrest) as [Hcount Hlen].
    pose proof (@channel_call_opens s s1 ch Hch) as Hone.
    unfold not_open_calls in *. cbn [states_before filter].
    rewrite Hch. cbn [fst].
    destruct (is_open_now lib s); simpl; lia.
Qed.

Lemma channels_extends : forall n (s s' : state W) chs,
  exec lib (channels n) s = (s', inr chs) ->
  exists evs, trace s' = trace s ++ evs.
Proof.
  induction n as [|n IH]; intros s s' chs Hrun.
  - destruct (@channels_zero s s' chs Hrun) as [-> _]. exists [].
    now rewrite app_nil_r.
  - destruct (@channels_step n s s' chs Hrun) as [s1 [ch [chs' [Hch [Hrest _]]]]].
    destruct (IH _ _ _ Hrest) as [evs Hevs].
    destruct (is_open_now lib s) eqn:Ho.
    + unfold is_open_now in Ho.
      destruct (_connection (self s)) as [c|] eqn:Hc; [|discriminate].
      destruct (@channel_call_open s s1 c ch Hc Ho Hch) as [_ Hs1].
      rewrite Hs1 in Hevs. unfold after in Hevs. cbn [trace] in Hevs.
      rewrite <- app_assoc in Hevs. eexists. exact Hevs.
    + destruct (@channel_call_not_open s s1 ch Ho Hch) as [c [w [_ [_ Hs1]]]].
      rewrite Hs1 in Hevs. unfold after, opened in Hevs.
      cbn [trace] in Hevs. rewrite <- !app_assoc in Hevs.
      eexists. exact Hevs.
Qed.

(** Calls that find the stored connection [c] open create their channels
    on [c] and leave the manager as it is. *)
Lemma channels_reuse : forall n (s s' : state W) c chs,
  _connection (self s) = Some c ->
  Forall (fun st => is_open_now lib st = true) (states_before lib n s) ->
  exec lib (channels n) s = (s', inr chs) ->
  trace s' = trace s ++ channel_events c chs /\ self s' = self s.
Proof.
  induction n as [|n IH]; intros s s' c chs Hc Hall Hrun.
  - destruct (@channels_zero s s' chs Hrun) as [-> ->]. simpl.
    now rewrite app_nil_r.
  - destruct (@channels_step n s s' chs Hrun) as [s1 [ch [chs' [Hch [Hrest ->]]]]].
    cbn [states_before] in Hall. rewrite Hch in Hall. cbn [fst] in Hall.
    inversion Hall as [|st sts Ho Hall']; subst.
    unfold is_open_now in Ho. rewrite Hc in Ho.
    destruct (@channel_call_open s s1 c ch Hc Ho Hch) as [_ Hs1].
    assert (Hc1 : _connection (self s1) = Some c).
    { rewrite Hs1. exact Hc. }
    destruct (IH _ _ _ _ Hc1 Hall' Hrest) as [Htr Hself].
    split.
    + rewrite Htr, Hs1. unfold after. cbn [trace channel_events map].
      rewrite <- app_assoc. reflexivity.
    + rewrite Hself, Hs1. reflexivity.
Qed.

(** Against a library that creates a new channel object at every call,
    the channels of a run are distinct. *)
Lemma channels_distinct : forall chans,
  creates_new_channels lib chans ->
  forall n (s s' : state W) chs,
  exec lib (channels n) s = (s', inr chs) ->
  incl (chans (world s)) (chans (world s')) /\
  Forall (fun ch => ~ In ch (chans (world s))) chs /\
  NoDup chs.
Proof.
  intros chans [Hfresh Hgrow].
  assert (Hone : forall (s s1 : state W) ch,
            exec lib channel s = (s1, inr ch) ->
            incl (chans (world s)) (chans (world s1)) /\
            ~ In ch (chans (world s)) /\ In ch (chans (world s1))).
  { intros s s1 ch Hch. destruct (is_open_now lib s) eqn:Ho.
    - unfold is_open_now in Ho.
      destruct (_connection (self s)) as [c|] eqn:Hc; [|discriminate].
      destruct (@channel_call_open s s1 c ch Hc Ho Hch) as [Hcall _].
      destruct (Hfresh _ _ _ _ Hcall) as [Hnew Hin].
      pose proof (Hgrow _ (conn_channel c) (world s)) as Hincl.
      rewrite Hcall in Hincl. auto.
    - destruct (@channel_call_not_open s s1 ch Ho Hch) as [c [w [Hbc [Hcall _]]]].
      destruct (Hfresh _ _ _ _ Hcall) as [Hnew Hin].
      pose proof (Hgrow _ (BlockingConnection (parameters_of (self s)))
                    (world s)) as Hincl1.
      rewrite Hbc in Hincl1. cbn [fst] in Hincl1.
      pose proof (Hgrow _ (conn_channel c) w) as Hincl2.
      rewrite Hcall in Hincl2. cbn [fst] in Hincl2.
      repeat split; auto.
      intros a Ha. apply Hincl2, Hincl1, Ha. }
  induction n as [|n IH]; intros s s' chs Hrun.
  - destruct (@channels_zero s s' chs Hrun) as [-> ->].
    repeat split; [apply incl_refl|constructor|constructor].
  - destruct (@channels_step n s s' chs Hrun) as [s1 [ch [chs' [Hch [Hrest ->]]]]].
    destruct (Hone _ _ _ Hch) as [Hincl1 [Hnew Hin]].
    destruct (IH _ _ _ Hrest) as [Hincl2 [Hall Hnodup]].
    repeat split.
    + intros a Ha. apply Hincl2, Hincl1, Ha.
    + constructor; [exact Hnew|].
      eapply Forall_impl; [|exact Hall].
      intros a Ha Hin'. apply Ha, Hincl1, Hin'.
    + constructor; [|exact Hnodup].
      intros Hin'. rewrite Forall_forall in Hall.
      exact (Hall _ Hin' Hin).
Qed.

(** C2 (as amended).  On a manager that is not open, the first of [n + 1]
    successful [channel()] calls opens a connection; over the whole run a
    connection is opened at exactly the calls that find the manager not
    open.  So when the stored connection reports open at every later call,
    the connection is opened once, every channel is created on it, each
    call returns the channel its own library call created, and [is_open]
    afterward is what that connection then reports.  The channels are
    distinct against a library that creates a new object at every call. *)
Theorem channel_opens_once : forall n (s s' : state W) chs,
  is_open_now lib s = false ->
  exec lib (channels (S n)) s = (s', inr chs) ->
  exists c,
    (exists rest,
       trace s' =
       trace s ++
       Ev (BlockingConnection (parameters_of (self s))) (inr c) :: rest) /\
    List.length (filter is_open_event (trace s')) =
    List.length (filter is_open_event (trace s)) +
    not_open_calls lib (S n) s /\
    List.length chs = S n /\
    (Forall (fun st => is_open_now lib st = true)
       (tl (states_before lib (S n) s)) ->
     trace s' =
     trace s ++
     Ev (BlockingConnection (parameters_of (self s))) (inr c) ::
     channel_events c chs /\
     List.length (filter is_open_event (trace s')) =
     S (List.length (filter is_open_event (trace s))) /\
     _connection (self s') = Some c /\
     is_open_now lib s' = pika_is_open lib c (world s')) /\
    (forall chans, creates_new_channels lib chans -> NoDup chs).
Proof.
  intros n s s' chs Hclosed Hrun.
  destruct (@channels_opens (S n) s s' chs Hrun) as [Hcount Hlen].
  destruct (@channels_step n s s' chs Hrun) as [s1 [ch [chs' [Hch [Hrest Hchs]]]]].
  destruct (@channel_call_not_open s s1 ch Hclosed Hch) as [c [w [_ [_ Hs1]]]].
  exists c. split; [|split; [exact Hcount|split; [exact Hlen|split]]].
  - destruct (@channels_extends n s1 s' chs' Hrest) as [evs Hevs].
    rewrite Hs1 in Hevs. unfold after, opened in Hevs.
    cbn [trace] in Hevs. rewrite <- !app_assoc in Hevs.
    eexists. exact Hevs.
  - intros Hall.
    cbn [states_before tl] in Hall. rewrite Hch in Hall.
    cbn [fst] in Hall.
    assert (Hc1 : _connection (self s1) = Some c) by now rewrite Hs1.
    destruct (@channels_reuse n s1 s' c chs' Hc1 Hall Hrest)
      as [Htr Hself].
    assert (Htrace : trace s' =
                     trace s ++
                     Ev (BlockingConnection (parameters_of (self s)))
                        (inr c) :: channel_events c chs).
    { rewrite Htr, Hs1, Hchs. unfold after, opened.
      cbn [trace channel_events map]. rewrite <- !app_assoc.
      reflexivity. }
    assert (Hnone : forall l,
              filter is_open_event (channel_events c l) = []).
    { induction l as [|a l IHl]; simpl; auto. }
    split; [exact Htrace|]. split; [|split].
    + rewrite Htrace, filter_app, length_app. simpl.
      rewrite Hnone. simpl. lia.
    + rewrite Hself. exact Hc1.
    + unfold is_open_now. rewrite Hself, Hc1. reflexivity.
  - intros chans Hnew.
    destruct (@channels_distinct chans Hnew (S n) s s' chs Hrun)
      as [_ [_ Hnodup]].
    exact Hnodup.
Qed.

End Lazy.

(** **** The manager run against the reference broker *)

Lemma broker_creates_new_channels : forall faults,
  creates_new_channels (broker_lib faults) broker_chans.
Proof.
  intros faults. split.
  - intros c w w' ch. simpl. unfold faulty, broker_chans.
    destruct (faults OpChannel); [discriminate|].
    destruct (broker_is_open c w); [|discriminate].
    intros H. inversion H; subst. simpl next_id.
    rewrite !in_seq. lia.
  - intros X e w a. unfold broker_chans. rewrite !in_seq.
    intros Ha.
    assert (Hle : next_id w <=
                  next_id (fst (pika_call (broker_lib faults) e w))).
    { destruct e; simpl; unfold faulty;
        match goal with |- context [faults ?o] => destruct (faults o) end;
        simpl; try lia.
      destruct (broker_is_open c w); simpl; lia. }
    lia.
Qed.

Lemma channel_opens_once_witness :
  exists c,
    trace after_two_channels =
    trace state0 ++
    Ev (BlockingConnection (parameters_of (self state0))) (inr c) ::
    channel_events c [1; 2] /\
    List.length (filter is_open_event (trace after_two_channels)) =
    S (List.length (filter is_open_event (trace state0))) /\
    _connection (self after_two_channels) = Some c /\
    NoDup [1; 2].
Proof.
  assert (Hrun : exec (broker_lib no_faults) (channels 2) state0 =
                 (after_two_channels, inr [1; 2]))
    by (vm_compute; reflexivity).
  destruct (@channel_opens_once broker (broker_lib no_faults) 1 state0
              after_two_channels [1; 2] eq_refl Hrun)
    as [c [_ [_ [_ [Hreuse Hnodup]]]]].
  exists c.
  destruct Hreuse as [Htrace [Hcount [Hc _]]].
  { repeat constructor. }
  split; [exact Htrace|]. split; [exact Hcount|]. split; [exact Hc|].
  exact (Hnodup broker_chans (broker_creates_new_channels no_faults)).
Defined.

(** C2, refuted as stated: against a broker that drops the connection
    after each channel, two successful [channel()] calls on one manager
    open two connections, and [is_open] is false afterward. *)
Lemma channel_reopens_dropped_connection :
  is_open_now dropping_lib state0 = false /\
  exec dropping_lib (channels 2) state0 = (after_two_dropped, inr [1; 3]) /\
  filter is_open_event (trace after_two_dropped) =
  [Ev (BlockingConnection (parameters_of manager0)) (inr 0);
   Ev (BlockingConnection (parameters_of manager0)) (inr 2)] /\
  exec dropping_lib is_open after_two_dropped =
  (after_two_dropped, inr false).
Proof.
  repeat split; vm_compute; reflexivity.
Qed.

Lemma close_is_idempotent_witness :
  exec (broker_lib no_faults) (closes 3) state0 =
  (mkState manager0 (mkBroker 0 []) []
     [("DEBUG", "Not connected"); ("DEBUG", "Not connected");
      ("DEBUG", "Not connected")],
   inr tt).
Proof.
  exact (proj1 (close_is_idempotent (broker_lib no_faults) state0)
           eq_refl 3).
Defined.

Lemma channel_connect_failure_witness :
  exec (broker_lib connect_fails) channel state0 =
  (after_rejection, inl (OtherError "AMQPConnectionError")) /\
  _connection (self after_rejection) = None /\
  exec (broker_lib connect_fails) is_open after_rejection =
  (after_rejection, inr false).
Proof.
  destruct (@channel_connect_failure broker (broker_lib connect_fails)
              state0 (mkBroker 0 []) (OtherError "AMQPConnectionError")
              eq_refl eq_refl) as [Hraise [Hnone _]].
  split; [exact Hraise|]. split; [reflexivity|]. exact (Hnone eq_refl).
Defined.


(** C5, refuted as stated: [channel()] raises the error of the library as
    it is, here [AMQPConnectionError], which is not [ConnectionError]. *)
Lemma channel_raises_library_error_not_ConnectionError :
  exec (broker_lib connect_fails) channel state0 =
  (after_rejection, inl (OtherError "AMQPConnectionError")) /\
  OtherError "AMQPConnectionError" <> ConnectionError.
Proof.
  split; [vm_compute; reflexivity|]. intros H. discriminate H.
Qed.

End ConnectionClaims.

(** ** Further properties of kuyruk/__init__.py *)

Module KuyrukExtras.
Import Kuyruk.
Import KuyrukClaims.

Ltac by_computation := vm_compute; reflexivity.

Section Scopes.
Variable W : Type.
Variable lib : amqp_lib W.

Lemma exec_connection_enter : forall self (s : state W),
  exec lib (connection_enter self) s =
  let (w1, r1) := lib_call lib (Connection_of self) (world s) in
  match r1 with
  | inl x => (after s (Connection_of self) w1 (inl x), inl x)
  | inr c =>
      let (w2, r2) := lib_call lib (conn_connect c) w1 in
      let s2 :=
        after (after s (Connection_of self) w1 (inr c))
          (conn_connect c) w2 r2 in
      match r2 with
      | inr _ => (logged s2 "Connected to RabbitMQ", inr c)
      | inl x =>
          if is_AttributeError x
          then (logged s2 "Connected to RabbitMQ", inr c)
          else (s2, inl x)
      end
  end.
Proof.
  intros self s. unfold connection_enter. fold (Connection_of self).
  rewrite exec_bind, exec_call.
  destruct (lib_call lib (Connection_of self) (world s)) as [w1 [x | c]];
    cbn [fst snd]; [reflexivity|].
  unfold exec. simpl.
  destruct (lib_call lib (conn_connect c) w1) as [w2 [x | u]]; simpl;
    [destruct (is_AttributeError x)|]; reflexivity.
Qed.

(** X1.  When [amqp.Connection(...)] raises, both scopes raise that error
    at once: the body is not run, nothing else is called and nothing is
    logged. *)
Theorem scope_constructor_failure :
  forall A B self (body : conn -> prog kE A) (cbody : chan -> prog kE B)
         (s : state W) w e,
  lib_call lib (Connection_of self) (world s) = (w, inl e) ->
  exec lib (connection self body) s =
  (after s (Connection_of self) w (inl e), inl e) /\
  exec lib (channel self cbody) s =
  (after s (Connection_of self) w (inl e), inl e).
Proof.
  intros A B self body cbody s w e H. unfold channel.
  rewrite !exec_connection, exec_connection_enter, H. split; reflexivity.
Qed.

(** X2.  When [conn.connect()] raises an error that is no
    [AttributeError], the [connection] scope raises it: the body is not
    run, nothing is logged, and the connection object just constructed is
    neither probed nor closed. *)
Theorem connection_connect_failure :
  forall A self (body : conn -> prog kE A) (s : state W) w1 c w2 e,
  lib_call lib (Connection_of self) (world s) = (w1, inr c) ->
  lib_call lib (conn_connect c) w1 = (w2, inl e) ->
  is_AttributeError e = false ->
  exec lib (connection self body) s =
  (after (after s (Connection_of self) w1 (inr c))
     (conn_connect c) w2 (inl e),
   inl e).
Proof.
  intros A self body s w1 c w2 e H1 H2 He.
  rewrite exec_connection, exec_connection_enter, H1, H2, He.
  reflexivity.
Qed.

(** X3.  An [AttributeError] raised by [conn.connect()] is ignored: the
    scope is entered with the constructed connection and logs
    ["Connected to RabbitMQ"], as when [connect()] returns. *)
Theorem connection_connect_attribute_error_ignored :
  forall self (s : state W) w1 c w2 e,
  lib_call lib (Connection_of self) (world s) = (w1, inr c) ->
  lib_call lib (conn_connect c) w1 = (w2, inl e) ->
  is_AttributeError e = true ->
  exec lib (connection_enter self) s =
  (logged
     (after (after s (Connection_of self) w1 (inr c))
        (conn_connect c) w2 (inl e))
     "Connected to RabbitMQ",
   inr c).
Proof.
  intros self s w1 c w2 e H1 H2 He.
  rewrite exec_connection_enter, H1, H2, He. reflexivity.
Qed.

(** X4.  When [conn.channel()] raises inside the [channel] scope, the body
    is not run but the connection is still torn down (probed, and closed
    if alive); unless the teardown raises, the scope raises the error of
    [conn.channel()]. *)
Theorem channel_acquire_failure :
  forall A self (body : chan -> prog kE A) (s s1 : state W) c w2 e,
  exec lib (connection_enter self) s = (s1, inr c) ->
  lib_call lib (conn_channel c) (world s1) = (w2, inl e) ->
  (exists td,
     trace (fst (exec lib (channel self body) s)) =
     trace s1 ++ Ev (conn_channel c) (inl e) :: td /\
     teardown_events c td) /\
  (snd (exec lib (connection_exit c)
          (after s1 (conn_channel c) w2 (inl e))) = inr tt ->
   snd (exec lib (channel self body) s) = inl e).
Proof.
  intros A self body s s1 c w2 e Henter Hch.
  assert (Hrun : exec lib (channel self body) s =
            let (s3, r3) :=
              exec lib (connection_exit c)
                (after s1 (conn_channel c) w2 (inl e)) in
            (s3, match r3 with inl y => inl y | inr _ => inl e end)).
  { unfold channel. rewrite exec_connection, Henter, exec_channel_body.
    unfold channel_enter. rewrite exec_bind, exec_call, Hch.
    cbn [fst snd].
    destruct (exec lib (connection_exit c)
                (after s1 (conn_channel c) w2 (inl e))) as [s3 [y | u]];
      reflexivity. }
  rewrite Hrun.
  destruct (connection_exit_teardown lib c
              (after s1 (conn_channel c) w2 (inl e))) as [td [Htd Hshape]].
  destruct (exec lib (connection_exit c)
              (after s1 (conn_channel c) w2 (inl e))) as [s3 r3].
  cbn [fst snd] in *. split.
  - exists td. split; [|exact Hshape].
    rewrite Htd. unfold after. cbn [trace].
    rewrite <- app_assoc. reflexivity.
  - intros Hr. rewrite Hr. reflexivity.
Qed.

(** X5.  The outcome of a [channel] scope: an error raised by the
    connection teardown wins, else an error raised by the channel release,
    else the outcome of the body (its value or its error). *)
Theorem channel_scope_outcome :
  forall A self (body : chan -> prog kE A)
         (s s1 s2 s3 s4 s5 : state W) c ch r r4 r5,
  exec lib (connection_enter self) s = (s1, inr c) ->
  exec lib (channel_enter c) s1 = (s2, inr ch) ->
  exec lib (body ch) s2 = (s3, r) ->
  exec lib (channel_exit ch) s3 = (s4, r4) ->
  exec lib (connection_exit c) s4 = (s5, r5) ->
  exec lib (channel self body) s =
  (s5,
   match r5 with
   | inl y => inl y
   | inr _ => match r4 with inl x => inl x | inr _ => r end
   end).
Proof.
  intros A self body s s1 s2 s3 s4 s5 c ch r r4 r5 H1 H2 H3 H4 H5.
  unfold channel.
  rewrite exec_connection, H1, exec_channel_body, H2, H3, H4.
  destruct r4 as [x | u4]; rewrite H5; destruct r5 as [y | u5]; reflexivity.
Qed.

(** X6.  Release order: when the body ends (with a value or an error) and
    the channel still reports open, the scope calls [ch.close()] first and
    then tears the connection down, and it does the teardown even if
    [ch.close()] raised. *)
Theorem channel_closed_before_connection :
  forall A self (body : chan -> prog kE A) (s s1 s2 s3 : state W) c ch r,
  exec lib (connection_enter self) s = (s1, inr c) ->
  exec lib (channel_enter c) s1 = (s2, inr ch) ->
  exec lib (body ch) s2 = (s3, r) ->
  lib_ch_is_open lib ch (world s3) = true ->
  exists rc td,
    trace (fst (exec lib (channel self body) s)) =
    trace s3 ++ Ev (ch_close ch) rc :: td /\
    teardown_events c td.
Proof.
  intros A self body s s1 s2 s3 c ch r H1 H2 H3 Hopen.
  unfold channel.
  rewrite exec_connection, H1, exec_channel_body, H2, H3.
  rewrite exec_channel_exit, Hopen.
  destruct (lib_call lib (ch_close ch) (world s3)) as [w4 rc].
  exists rc.
  destruct (connection_exit_teardown lib c (after s3 (ch_close ch) w4 rc))
    as [td [Htd Hshape]].
  exists td. split; [|exact Hshape].
  destruct (except_IOError rc) as [x | u];
    destruct (exec lib (connection_exit c) (after s3 (ch_close ch) w4 rc))
      as [s5 [y | u5]];
    simpl in Htd |- *; rewrite Htd, <- app_assoc; reflexivity.
Qed.

(** X7.  An error raised by [conn.close()] at the exit of the
    [connection] scope is not caught, whatever its class: it leaves the
    scope in place of the outcome of the body. *)
Theorem connection_close_error_propagates :
  forall A self (body : conn -> prog kE A) (s s1 s2 : state W)
         c r w3 u w4 y,
  exec lib (connection_enter self) s = (s1, inr c) ->
  exec lib (body c) s1 = (s2, r) ->
  lib_call lib (conn_send_heartbeat c) (world s2) = (w3, inr u) ->
  lib_call lib (conn_close c) w3 = (w4, inl y) ->
  exec lib (connection self body) s =
  (after (after s2 (conn_send_heartbeat c) w3 (inr u))
     (conn_close c) w4 (inl y),
   inl y).
Proof.
  intros A self body s s1 s2 c r w3 u w4 y H1 H2 Hhb Hclose.
  rewrite exec_connection, H1, H2, exec_connection_exit, Hhb, Hclose.
  reflexivity.
Qed.

(** X8.  [_is_alive] catches [IOError] only: a heartbeat that raises
    another error makes the [connection] scope raise that error, in place
    of the outcome of the body and without calling [conn.close()]. *)
Theorem heartbeat_error_propagates :
  forall A self (body : conn -> prog kE A) (s s1 s2 : state W) c r w3 x,
  exec lib (connection_enter self) s = (s1, inr c) ->
  exec lib (body c) s1 = (s2, r) ->
  lib_call lib (conn_send_heartbeat c) (world s2) = (w3, inl x) ->
  is_IOError x = false ->
  exec lib (_is_alive c) s2 =
  (after s2 (conn_send_heartbeat c) w3 (inl x), inl x) /\
  exec lib (connection self body) s =
  (after s2 (conn_send_heartbeat c) w3 (inl x), inl x).
Proof.
  intros A self body s s1 s2 c r w3 x H1 H2 Hhb Hx. split.
  - rewrite exec__is_alive, Hhb, Hx. reflexivity.
  - rewrite exec_connection, H1, H2, exec_connection_exit, Hhb, Hx.
    reflexivity.
Qed.

(** X9.  What a [channel] scope logs: entering it logs
    ["Connected to RabbitMQ"] and then ["Opened new channel"]; leaving it
    logs nothing, however the body ended and whatever the releases
    answered. *)
Theorem channel_scope_logs :
  forall A self (body : chan -> prog kE A) (s s1 s2 s3 : state W) c ch r,
  exec lib (connection_enter self) s = (s1, inr c) ->
  exec lib (channel_enter c) s1 = (s2, inr ch) ->
  exec lib (body ch) s2 = (s3, r) ->
  logs s2 = logs s ++ ["Connected to RabbitMQ"; "Opened new channel"] /\
  logs (fst (exec lib (channel self body) s)) = logs s3.
Proof.
  intros A self body s s1 s2 s3 c ch r H1 H2 H3. split.
  - assert (L1 : logs s1 = logs s ++ ["Connected to RabbitMQ"]).
    { rewrite exec_connection_enter in H1.
      destruct (lib_call lib (Connection_of self) (world s))
        as [w1 [x | c1]]; [discriminate|].
      destruct (lib_call lib (conn_connect c1) w1) as [w2 [x | u]];
        [destruct (is_AttributeError x); [|discriminate]|];
        inversion H1; reflexivity. }
    unfold channel_enter in H2. rewrite exec_bind, exec_call in H2.
    destruct (lib_call lib (conn_channel c) (world s1)) as [w [x | ch1]];
      cbn [fst snd] in H2; [discriminate|].
    inversion H2. cbn [logs after]. rewrite L1, <- app_assoc. reflexivity.
  - unfold channel.
    rewrite exec_connection, H1, exec_channel_body, H2, H3.
    assert (L4 : logs (fst (exec lib (channel_exit ch) s3)) = logs s3).
    { rewrite exec_channel_exit.
      destruct (lib_ch_is_open lib ch (world s3)); [|reflexivity].
      destruct (lib_call lib (ch_close ch) (world s3)); reflexivity. }
    destruct (exec lib (channel_exit ch) s3) as [s4 r4].
    cbn [fst] in L4.
    assert (L5 : logs (fst (exec lib (connection_exit c) s4)) = logs s4).
    { rewrite exec_connection_exit.
      destruct (lib_call lib (conn_send_heartbeat c) (world s4))
        as [w5 [x | u]]; [reflexivity|].
      destruct (lib_call lib (conn_close c) w5); reflexivity. }
    destruct r4 as [x | u4];
      destruct (exec lib (connection_exit c) s4) as [s5 [y | u5]];
      cbn [fst] in L5 |- *; congruence.
Qed.

End Scopes.

(** X10.  For a callable [f], the bare form [task(f, ...)] gives the very
    [Task] that the parameterized form without a queue, [task(...)(f)],
    gives. *)
Theorem task_bare_is_empty_call :
  forall self f retry max_run_time,
  callable f = true ->
  exists t cl,
    task self (Some f) retry max_run_time = Ret (Decorated t) /\
    task self None retry max_run_time = Ret (Decorator cl) /\
    inner cl f = Ret t.
Proof.
  intros self f retry max_run_time Hf.
  unfold task. rewrite Hf. simpl. rewrite Hf.
  do 2 eexists. repeat split.
Qed.

(** X11.  The parameterized form checks nothing: a queue that is not
    callable is stored as given, [None] included, whatever is decorated;
    an omitted [retry] is [0] and an omitted [max_run_time] is [None]. *)
Theorem task_stores_queue_unchecked :
  forall self q f retry max_run_time,
  callable q = false ->
  exists cl,
    task self (Some q) retry max_run_time = Ret (Decorator cl) /\
    inner cl f =
    Ret (mkTask f self q (or_default retry (PyInt 0))
           (or_default max_run_time PyNone)).
Proof.
  intros self q f retry max_run_time Hq.
  unfold task. rewrite Hq.
  eexists. split; [reflexivity|].
  unfold inner. simpl. rewrite Hq. reflexivity.
Qed.

Lemma scope_constructor_failure_witness :
  exec (broker_lib connection_refused) (channel kuyruk0 publishing_body)
    state0 =
  (after state0 (Connection_of kuyruk0) (world state0) (inl IOError),
   inl IOError).
Proof.
  exact (proj2 (@scope_constructor_failure broker
                  (broker_lib connection_refused) unit unit kuyruk0
                  conn_body publishing_body state0 (world state0) IOError
                  eq_refl)).
Defined.

Lemma connection_connect_failure_witness :
  snd (exec (broker_lib connect_refused) (connection kuyruk0 conn_body)
         state0) = inl (OtherError "AccessRefused") /\
  List.length
    (trace (fst (exec (broker_lib connect_refused)
                   (connection kuyruk0 conn_body) state0))) = 2.
Proof.
  rewrite (@connection_connect_failure broker (broker_lib connect_refused)
             unit kuyruk0 conn_body state0 (world entered0) 0
             (world entered0) (OtherError "AccessRefused")
             eq_refl eq_refl eq_refl).
  split; reflexivity.
Defined.

Lemma connection_connect_attribute_error_ignored_witness :
  exec (broker_lib connect_missing) (connection_enter kuyruk0) state0 =
  (mkState (world entered0)
     [Ev (Connection_of kuyruk0) (inr 0);
      Ev (conn_connect 0) (inl AttributeError)]
     ["Connected to RabbitMQ"],
   inr 0).
Proof.
  exact (@connection_connect_attribute_error_ignored broker
           (broker_lib connect_missing) kuyruk0 state0 (world entered0) 0
           (world entered0) AttributeError eq_refl eq_refl eq_refl).
Defined.

Lemma channel_acquire_failure_witness :
  snd (exec (broker_lib channel_refused) (channel kuyruk0 publishing_body)
         state0) = inl (OtherError "ResourceError").
Proof.
  assert (Henter : exec (broker_lib channel_refused)
                     (connection_enter kuyruk0) state0 =
                   (entered0, inr 0)) by by_computation.
  apply (proj2 (@channel_acquire_failure broker
                  (broker_lib channel_refused) unit kuyruk0
                  publishing_body state0 entered0 0 (world entered0)
                  (OtherError "ResourceError") Henter eq_refl)).
  by_computation.
Defined.

Lemma channel_scope_outcome_witness :
  snd (exec (broker_lib conn_close_fails) (channel kuyruk0 failing_body)
         state0) = inl IOError.
Proof.
  assert (H1 : exec (broker_lib conn_close_fails)
                 (connection_enter kuyruk0) state0 = (entered0, inr 0))
    by by_computation.
  assert (H2 : exec (broker_lib conn_close_fails) (channel_enter 0)
                 entered0 = (in_body0, inr 1))
    by by_computation.
  assert (H3 : exec (broker_lib conn_close_fails) (failing_body 1)
                 in_body0 = (body_done0, inl (OtherError "ValueError")))
    by by_computation.
  assert (H4 : exec (broker_lib conn_close_fails) (channel_exit 1)
                 body_done0 = (released0, inr tt))
    by by_computation.
  assert (H5 : exec (broker_lib conn_close_fails) (connection_exit 0)
                 released0 =
               (fst (exec (broker_lib conn_close_fails) (connection_exit 0)
                       released0), inl IOError))
    by by_computation.
  rewrite (@channel_scope_outcome _ (broker_lib conn_close_fails) _ kuyruk0
             failing_body _ _ _ _ _ _ _ _ _ _ _ H1 H2 H3 H4 H5).
  reflexivity.
Defined.

Lemma channel_closed_before_connection_witness :
  exists rc td,
    trace (fst (exec (broker_lib no_faults) (channel kuyruk0 failing_body)
                  state0)) =
    trace body_done0 ++ Ev (ch_close 1) rc :: td /\
    teardown_events 0 td.
Proof.
  assert (H1 : exec (broker_lib no_faults)
                 (connection_enter kuyruk0) state0 = (entered0, inr 0))
    by by_computation.
  assert (H2 : exec (broker_lib no_faults) (channel_enter 0)
                 entered0 = (in_body0, inr 1))
    by by_computation.
  assert (H3 : exec (broker_lib no_faults) (failing_body 1)
                 in_body0 = (body_done0, inl (OtherError "ValueError")))
    by by_computation.
  exact (@channel_closed_before_connection _ (broker_lib no_faults) _
           kuyruk0 failing_body _ _ _ _ _ _ _ H1 H2 H3 eq_refl).
Defined.

Lemma channel_scope_logs_witness :
  logs (fst (exec (broker_lib ch_close_fails) (channel kuyruk0 failing_body)
               state0)) =
  ["Connected to RabbitMQ"; "Opened new channel"].
Proof.
  assert (H1 : exec (broker_lib ch_close_fails)
                 (connection_enter kuyruk0) state0 = (entered0, inr 0))
    by by_computation.
  assert (H2 : exec (broker_lib ch_close_fails) (channel_enter 0)
                 entered0 = (in_body0, inr 1))
    by by_computation.
  assert (H3 : exec (broker_lib ch_close_fails) (failing_body 1)
                 in_body0 = (body_done0, inl (OtherError "ValueError")))
    by by_computation.
  rewrite (proj2 (@channel_scope_logs _ (broker_lib ch_close_fails) _
                    kuyruk0 failing_body _ _ _ _ _ _ _ H1 H2 H3)).
  reflexivity.
Defined.

Lemma connection_close_error_propagates_witness :
  snd (exec (broker_lib conn_close_fails) (connection kuyruk0 conn_body)
         state0) = inl IOError.
Proof.
  assert (H1 : exec (broker_lib conn_close_fails)
                 (connection_enter kuyruk0) state0 = (entered0, inr 0))
    by by_computation.
  assert (H2 : exec (broker_lib conn_close_fails) (conn_body 0) entered0 =
               (conn_body_done0, inr tt))
    by by_computation.
  rewrite (@connection_close_error_propagates broker
             (broker_lib conn_close_fails) unit kuyruk0 conn_body state0
             entered0 conn_body_done0 0 (inr tt) (world conn_body_done0) tt
             (world conn_body_done0) IOError H1 H2 eq_refl eq_refl).
  reflexivity.
Defined.

Lemma heartbeat_error_propagates_witness :
  snd (exec (broker_lib heartbeat_breaks) (connection kuyruk0 conn_body)
         state0) = inl (OtherError "ConnectionForced").
Proof.
  assert (H1 : exec (broker_lib heartbeat_breaks)
                 (connection_enter kuyruk0) state0 = (entered0, inr 0))
    by by_computation.
  assert (H2 : exec (broker_lib heartbeat_breaks) (conn_body 0) entered0 =
               (conn_body_done0, inr tt))
    by by_computation.
  rewrite (proj2 (@heartbeat_error_propagates broker
                    (broker_lib heartbeat_breaks) unit kuyruk0 conn_body
                    state0 entered0 conn_body_done0 0 (inr tt)
                    (world conn_body_done0) (OtherError "ConnectionForced")
                    H1 H2 eq_refl eq_refl)).
  reflexivity.
Defined.

Lemma task_bare_is_empty_call_witness :
  exists t cl,
    task kuyruk0 (Some (PyFunc "add")) (Some (PyInt 3)) None =
    Ret (Decorated t) /\
    task kuyruk0 None (Some (PyInt 3)) None = Ret (Decorator cl) /\
    inner cl (PyFunc "add") = Ret t.
Proof.
  exact (task_bare_is_empty_call kuyruk0 (PyFunc "add") (Some (PyInt 3))
           None eq_refl).
Defined.

Lemma task_stores_queue_unchecked_witness :
  exists cl,
    task kuyruk0 (Some PyNone) None None = Ret (Decorator cl) /\
    inner cl (PyInt 7) =
    Ret (mkTask (PyInt 7) kuyruk0 PyNone (PyInt 0) PyNone).
Proof.
  exact (task_stores_queue_unchecked kuyruk0 PyNone (PyInt 7) None None
           eq_refl).
Defined.

End KuyrukExtras.

(** ** Further properties of kuyruk/connection.py *)

Module ConnectionExtras.
Import Connection.
Import ConnectionClaims.

Ltac by_computation := vm_compute; reflexivity.

Section Manager.
Variable W : Type.
Variable lib : pika_lib W.

(** [close()] on an open manager. *)
Lemma exec_close_open : forall (s : state W) c,
  _connection (self s) = Some c ->
  pika_is_open lib c (world s) = true ->
  exec lib close s =
  let (w, r) := pika_call lib (conn_close c) (world s) in
  match r with
  | inl x => (after s (conn_close c) w (inl x), inl x)
  | inr u =>
      (log (after s (conn_close c) w (inr u)) "INFO" "Connection closed",
       inr tt)
  end.
Proof.
  intros s c Hc Ho. unfold close.
  rewrite lc_exec_bind, exec_is_open. unfold is_open_now.
  rewrite Hc, Ho. rewrite lc_exec_bind.
  rewrite (@exec_on_connection _ lib _
             (fun c => call (Pika (conn_close c))) s c Hc).
  rewrite lc_exec_call.
  destruct (pika_call lib (conn_close c) (world s)) as [w [x | u]];
    reflexivity.
Qed.

(** X12.  [open()] on an open manager raises [AssertionError] and does
    nothing else; so of two [open()] calls in a row on a manager that was
    not open, the second raises [AssertionError] once the library reports
    the new connection open. *)
Theorem open_on_open_manager_asserts : forall s : state W,
  (is_open_now lib s = true ->
   exec lib open s = (s, inl AssertionError)) /\
  (forall w c,
     is_open_now lib s = false ->
     pika_call lib (BlockingConnection (parameters_of (self s))) (world s) =
     (w, inr c) ->
     pika_is_open lib c w = true ->
     exec lib (open ;;; open) s = (opened s c w, inl AssertionError)).
Proof.
  assert (Hopen : forall s : state W,
            is_open_now lib s = true ->
            exec lib open s = (s, inl AssertionError)).
  { intros s H. unfold open. rewrite lc_exec_bind, exec_is_open, H.
    reflexivity. }
  intros s. split; [apply Hopen|].
  intros w c Hs Hcall Ho.
  rewrite lc_exec_bind, exec_open, Hcall by exact Hs.
  apply Hopen. unfold is_open_now, opened. simpl. exact Ho.
Qed.

(** X13.  [close()] never changes the manager object: the stored
    connection is kept, not reset to [None], whether the manager was open
    or not and whether or not the library's [close()] raised. *)
Theorem close_keeps_manager : forall s : state W,
  self (fst (exec lib close s)) = self s.
Proof.
  intros s. destruct (is_open_now lib s) eqn:Ho.
  - unfold is_open_now in Ho.
    destruct (_connection (self s)) as [c|] eqn:Hc; [|discriminate].
    rewrite (@exec_close_open s c Hc Ho).
    destruct (pika_call lib (conn_close c) (world s)) as [w [x | u]];
      reflexivity.
  - rewrite exec_close_not_open by exact Ho. reflexivity.
Qed.

(** X14.  A closed manager reconnects: when [close()] succeeds on an open
    manager and the library then reports the connection closed, the next
    [channel()] constructs a new connection, stores it in place of the old
    one and creates the channel on it. *)
Theorem channel_after_close_reconnects :
  forall (s : state W) c w1 w2 c2 w3 ch,
  _connection (self s) = Some c ->
  pika_is_open lib c (world s) = true ->
  pika_call lib (conn_close c) (world s) = (w1, inr tt) ->
  pika_is_open lib c w1 = false ->
  pika_call lib (BlockingConnection (parameters_of (self s))) w1 =
  (w2, inr c2) ->
  pika_call lib (conn_channel c2) w2 = (w3, inr ch) ->
  let s1 := log (after s (conn_close c) w1 (inr tt))
              "INFO" "Connection closed" in
  let s' := after (opened s1 c2 w2) (conn_channel c2) w3 (inr ch) in
  exec lib (close ;;; channel) s = (s', inr ch) /\
  _connection (self s') = Some c2.
Proof.
  intros s c w1 w2 c2 w3 ch Hc Ho Hclose Hclosed Hnew Hch s1 s'.
  split; [|reflexivity].
  rewrite lc_exec_bind, (@exec_close_open s c Hc Ho), Hclose.
  fold s1.
  assert (Hs1 : is_open_now lib s1 = false).
  { unfold is_open_now, s1. simpl. rewrite Hc. exact Hclosed. }
  rewrite exec_channel_not_open by exact Hs1.
  change (parameters_of (self s1)) with (parameters_of (self s)).
  change (world s1) with w1. rewrite Hnew.
  rewrite lc_exec_call. change (world (opened s1 c2 w2)) with w2.
  rewrite Hch. reflexivity.
Qed.

(** X15.  [channel()] can fail after it has connected: when the manager
    is not open, [pika.BlockingConnection] succeeds and creating the
    channel raises [e], [channel()] raises [e] and the new connection
    stays stored in the manager. *)
Theorem channel_failure_after_connect : forall (s : state W) w1 c w2 e,
  is_open_now lib s = false ->
  pika_call lib (BlockingConnection (parameters_of (self s))) (world s) =
  (w1, inr c) ->
  pika_call lib (conn_channel c) w1 = (w2, inl e) ->
  let s' := after (opened s c w1) (conn_channel c) w2 (inl e) in
  exec lib channel s = (s', inl e) /\
  _connection (self s') = Some c /\
  logs s' = logs s ++ [("INFO", "Connected to RabbitMQ")].
Proof.
  intros s w1 c w2 e Hs Hnew Hch s'.
  split; [|split; reflexivity].
  rewrite exec_channel_not_open, Hnew by exact Hs.
  rewrite lc_exec_call. change (world (opened s c w1)) with w1.
  rewrite Hch. reflexivity.
Qed.

(** X16.  On an open manager, an error of the library's [channel()] is
    raised as it is: no new connection is attempted, and the manager and
    the log are unchanged. *)
Theorem channel_failure_on_open_manager : forall (s : state W) c w e,
  _connection (self s) = Some c ->
  pika_is_open lib c (world s) = true ->
  pika_call lib (conn_channel c) (world s) = (w, inl e) ->
  exec lib channel s =
  (mkState (self s) w (trace s ++ [Ev (conn_channel c) (inl e)]) (logs s),
   inl e).
Proof.
  intros s c w e Hc Ho Hch.
  rewrite (@exec_channel_open _ lib s c Hc Ho), lc_exec_call, Hch. reflexivity.
Qed.

(** X17.  A manager as the constructor leaves it is not open, whatever
    the state of the library; its first [channel()] call starts by
    constructing a connection from exactly the constructor's host, port,
    user and password. *)
Theorem fresh_manager_connects_with_its_arguments :
  forall h p u pw (w : W) tr lg,
  let s := mkState (__init__ h p u pw) w tr lg in
  let e :=
    BlockingConnection
      (mkConnectionParameters h p (mkPlainCredentials u pw)) in
  exec lib is_open s = (s, inr false) /\
  exists rest,
    trace (fst (exec lib channel s)) =
    tr ++ Ev e (snd (pika_call lib e w)) :: rest.
Proof.
  intros h p u pw w tr lg s e. split.
  - rewrite exec_is_open. reflexivity.
  - assert (Hs : is_open_now lib s = false) by reflexivity.
    rewrite exec_channel_not_open by exact Hs.
    change (parameters_of (self s))
      with (mkConnectionParameters h p (mkPlainCredentials u pw)).
    change (world s) with w. fold e.
    destruct (pika_call lib e w) as [w1 [x | c]].
    + exists []. reflexivity.
    + rewrite lc_exec_call.
      exists [Ev (conn_channel c)
                (snd (pika_call lib (conn_channel c)
                        (world (opened s c w1))))].
      unfold after, opened. simpl. rewrite <- app_assoc. reflexivity.
Qed.

End Manager.

Lemma open_on_open_manager_asserts_witness :
  exec (broker_lib no_faults) (open ;;; open) state0 =
  (open_state, inl AssertionError).
Proof.
  exact (proj2 (@open_on_open_manager_asserts broker (broker_lib no_faults)
                  state0)
           (mkBroker 1 [0]) 0 eq_refl eq_refl eq_refl).
Defined.

Lemma channel_after_close_reconnects_witness :
  snd (exec (broker_lib no_faults) (close ;;; channel) open_state) = inr 2 /\
  filter is_open_event
    (trace (fst (exec (broker_lib no_faults) (close ;;; channel)
                   open_state))) =
  [Ev (BlockingConnection (parameters_of manager0)) (inr 0);
   Ev (BlockingConnection (parameters_of manager0)) (inr 1)].
Proof.
  rewrite (proj1 (@channel_after_close_reconnects broker
                    (broker_lib no_faults) open_state 0
                    (mkBroker 1 []) (mkBroker 2 [1]) 1 (mkBroker 3 [1]) 2
                    eq_refl eq_refl eq_refl eq_refl eq_refl eq_refl)).
  split; reflexivity.
Defined.

Lemma channel_failure_after_connect_witness :
  snd (exec (broker_lib channel_fails) channel state0) =
  inl (OtherError "ChannelClosed") /\
  _connection (self (fst (exec (broker_lib channel_fails) channel state0))) =
  Some 0.
Proof.
  rewrite (proj1 (@channel_failure_after_connect broker
                    (broker_lib channel_fails) state0 (mkBroker 1 [0]) 0
                    (mkBroker 1 [0]) (OtherError "ChannelClosed")
                    eq_refl eq_refl eq_refl)).
  split; reflexivity.
Defined.

Lemma channel_failure_on_open_manager_witness :
  exec (broker_lib channel_fails) channel open_state =
  (mkState (self open_state) (world open_state)
     (trace open_state ++
      [Ev (conn_channel 0) (inl (OtherError "ChannelClosed"))])
     (logs open_state),
   inl (OtherError "ChannelClosed")).
Proof.
  exact (@channel_failure_on_open_manager broker (broker_lib channel_fails)
           open_state 0 (world open_state) (OtherError "ChannelClosed")
           eq_refl eq_refl eq_refl).
Defined.

End ConnectionExtras.
